(** * ping: an ICMP echo client (main.go)

    A shallow embedding of [checkSum] and of [ping] from the point where
    the connection is open, with the properties of the packet builder, of
    the one's-complement checksum, of the request loop and of the run
    statistics.

    Conventions.
    - Unsigned Go integers ([uint8], [uint16], [uint32]) are values of [N],
      signed ones ([int], [int64]) are values of [Z]; every operation
      writes its wrap-around out.  [int] is taken to be 64 bits wide.
    - A byte slice is a [list byte]; indexing or storing out of range,
      [make] with a negative length and an integer division by zero
      panic, as the Go runtime does.  Running out of memory is not
      modelled.
    - The network is a parameter: a [transport] answers each written
      datagram with what [conn.Write] and [conn.Read] returned and with
      the milliseconds that passed meanwhile.  The deadline set before
      each write is the transport's affair.
    - Of what is printed, the line per request and the operands of the
      final summary are kept; the banner before the loop and the remote
      address are not.  A host that cannot be dialled ends the program
      before any of this. *)

From Stdlib Require Import ZArith NArith Lia List Bool String.
From Stdlib.Strings Require Import Byte.
From Stdlib Require Import Floats DecimalString.
From stdpp Require Import base list.
From Equations Require Import Equations.
Import ListNotations.

Local Open Scope Z_scope.

(** ** Fixed-width integers *)

Definition uint8 (n : N) : N := (n mod 2 ^ 8)%N.
Definition uint16 (n : N) : N := (n mod 2 ^ 16)%N.
Definition uint32 (n : N) : N := (n mod 2 ^ 32)%N.

(** Two's-complement wrap-around of a signed 64-bit integer. *)
Definition int64 (z : Z) : Z := (z + 2 ^ 63) mod 2 ^ 64 - 2 ^ 63.

Definition MaxInt32 : Z := 2147483647.
Definition MaxInt64 : Z := 9223372036854775807.
Definition MinInt64 : Z := -9223372036854775808.

(** [uint16(i)] for an [int] [i]: the low sixteen bits. *)
Definition uint16_of_int (i : Z) : N := Z.to_N (i mod 2 ^ 16).

(** [byte(v)] for an unsigned [v]: the low eight bits. *)
Definition byte_of_N (v : N) : byte :=
  match Byte.of_N (uint8 v) with
  | Some b => b
  | None => x00
  end.

(** ** Panics *)

Inductive panic : Type :=
| IndexOutOfRange
| MakeSliceLenOutOfRange
| IntegerDivideByZero.

Inductive result (A : Type) : Type :=
| Ok (a : A)
| Panic (p : panic).
Arguments Ok {A} a.
Arguments Panic {A} p.

Definition bind {A B : Type} (m : result A) (k : A -> result B) : result B :=
  match m with
  | Ok a => k a
  | Panic p => Panic p
  end.

Notation "x <- m ;; k" := (bind m (fun x => k))
  (at level 20, m at level 99, k at level 200, only parsing).
Notation "' pat <- m ;; k" := (bind m (fun x => match x with pat => k end))
  (at level 20, pat pattern, m at level 99, k at level 200, only parsing).

(** Go's [error] values; [None] stands for [nil]. *)
Inductive error : Type :=
| Err (msg : string).

(** ** Byte slices *)

(** [data[i]] *)
Definition index (data : list byte) (i : Z) : result byte :=
  if i <? 0 then Panic IndexOutOfRange
  else match data !! Z.to_nat i with
       | Some b => Ok b
       | None => Panic IndexOutOfRange
       end.

(** [data[i] = b] *)
Definition store (data : list byte) (i : Z) (b : byte) : result (list byte) :=
  if (i <? 0) || (Z.of_nat (length data) <=? i) then Panic IndexOutOfRange
  else Ok (<[Z.to_nat i := b]> data).

(** [make([]byte, size)] *)
Definition make (size : Z) : result (list byte) :=
  if size <? 0 then Panic MakeSliceLenOutOfRange
  else Ok (replicate (Z.to_nat size) x00).

(** ** checkSum (main.go, lines 132-155) *)

(** The first loop: [for len > 1 { sum += ...; len -= 2; idx += 2 }].
    It returns the three variables as the loop leaves them. *)
Equations? pairLoop (data : list byte) (len idx : Z) (sum : N)
  : result (Z * Z * N) by wf (Z.to_nat len) lt :=
pairLoop data len idx sum with Z_gt_dec len 1 := {
  | left _ =>
      b0 <- index data idx ;;
      b1 <- index data (idx + 1) ;;
      pairLoop data (len - 2) (idx + 2)
        (uint32 (sum + uint32 (uint32 (N.shiftl (Byte.to_N b0) 8)
                               + Byte.to_N b1)))
  | right _ => Ok (len, idx, sum) }.
Proof. lia. Qed.

(** The second loop: [hi16 := sum >> 16; for hi16 != 0 { sum = hi16 +
    uint32(uint16(sum)); hi16 = sum >> 16 }].  [hi16] is [sum >> 16]
    each time the condition is tested, so the loop is a function of [sum]. *)
Equations? foldLoop (sum : N) : N by wf (N.to_nat sum) lt :=
foldLoop sum with N.eq_dec (N.shiftr sum 16) 0%N := {
  | left _ => sum
  | right _ => foldLoop (uint32 (N.shiftr sum 16 + uint32 (uint16 sum))) }.
Proof.
  unfold uint32, uint16.
  rewrite N.shiftr_div_pow2 in *.
  change (2 ^ 16)%N with 65536%N in *; change (2 ^ 32)%N with 4294967296%N.
  zify; Z.to_euclidean_division_equations; lia.
Qed.

(** [^sum] on a [uint32]: all thirty-two bits flipped. *)
Definition not32 (sum : N) : N := N.lnot sum 32.

Definition checkSum (data : list byte) : result (N * option error) :=
  let len := Z.of_nat (length data) in
  ' (len, idx, sum) <- pairLoop data len 0 0%N ;;
  sum <- (if len =? 1
          then b <- index data idx ;; Ok (uint32 (sum + Byte.to_N b))
          else Ok sum) ;;
  let sum := foldLoop sum in
  Ok (uint16 (not32 sum), None).

(** ** The packet builder (ping, lines 59-86) *)

Record ICMP : Type := {
  Type_ : N;     (* uint8 *)
  Code : N;      (* uint8 *)
  CheckSum : N;  (* uint16 *)
  ID : N;        (* uint16 *)
  SeqNum : N     (* uint16 *)
}.

(** A [uint16] in network byte order: high byte first. *)
Definition bigEndian16 (v : N) : list byte :=
  [byte_of_N (N.shiftr v 8); byte_of_N v].

(** [binary.Write(&buffer, binary.BigEndian, icmp)]: the fields in the
    order of their declaration. *)
Definition binaryWrite (icmp : ICMP) : list byte :=
  [byte_of_N (Type_ icmp); byte_of_N (Code icmp)]
    ++ bigEndian16 (CheckSum icmp)
    ++ bigEndian16 (ID icmp)
    ++ bigEndian16 (SeqNum icmp).

(** Lines 85-86: [data[2] = byte(checkSum >> 8); data[3] = byte(checkSum)]. *)
Definition putCheckSum (data : list byte) (cs : N) : result (list byte) :=
  data <- store data 2 (byte_of_N (N.shiftr cs 8)) ;;
  store data 3 (byte_of_N cs).

(** What one iteration of the loop does with index [i] up to the point
    where it has a datagram to send: [inl data] is that datagram, [inr e]
    the error of [checkSum], on which the iteration gives up. *)
Definition buildPacket (i size : Z) : result (list byte + error) :=
  let icmp := {| Type_ := 8; Code := 0; CheckSum := 0;
                 ID := uint16_of_int i; SeqNum := uint16_of_int i |} in
  let buffer := binaryWrite icmp in
  data <- make size ;;
  let data := buffer ++ data in
  ' (cs, err) <- checkSum data ;;
  match err with
  | Some e => Ok (inr e)
  | None => data <- putCheckSum data cs ;; Ok (inl data)
  end.

(** ** The transport *)

(** What the connection does with one written datagram.  [elapsed] is the
    wall-clock time in milliseconds from [tStart] to the end of the
    exchange: after a read it is what [time.Since(tStart).Milliseconds()]
    returns, after a failed write the program does not take the reading. *)
Inductive response : Type :=
| WriteErr (elapsed : Z)                     (* conn.Write failed *)
| ReadErr (elapsed : Z)                      (* conn.Read failed or timed out *)
| ReadOk (elapsed : Z) (dgram : list byte).  (* conn.Read returned dgram *)

Definition elapsed (r : response) : Z :=
  match r with
  | WriteErr t | ReadErr t | ReadOk t _ => t
  end.

Definition transmitted (r : response) : bool :=
  match r with
  | WriteErr _ => false
  | ReadErr _ | ReadOk _ _ => true
  end.

(** The answer to the datagram written in iteration [i]. *)
Definition transport : Type := Z -> list byte -> response.

(** [buf := make([]byte, 1<<16); n, err := conn.Read(buf)] on success:
    the datagram is copied to the front of a zeroed buffer, cut to the
    buffer's length. *)
Definition bufLen : nat := Z.to_nat (Z.shiftl 1 16).
Definition readInto (dgram : list byte) : list byte * Z :=
  let got := take bufLen dgram in
  (got ++ replicate (bufLen - length got) x00, Z.of_nat (length got)).

(** ** The package variables (lines 14-24) *)

Record globals : Type := {
  timeout : Z;       (* int64 *)
  count : Z;         (* int *)
  size : Z;          (* int *)
  sendCount : Z;     (* int *)
  successCount : Z;  (* int *)
  failCount : Z;     (* int *)
  minTs : Z;         (* int64 *)
  maxTs : Z;         (* int64 *)
  totalTs : Z        (* int64 *)
}.

(** The variables when [ping] starts: the three flags as [getArgs] parsed
    them, the rest as declared. *)
Definition initial (w n l : Z) : globals :=
  {| timeout := w; count := n; size := l;
     sendCount := 0; successCount := 0; failCount := 0;
     minTs := MaxInt32; maxTs := 0; totalTs := 0 |}.

Definition incSendCount (g : globals) : globals :=
  {| timeout := timeout g; count := count g; size := size g;
     sendCount := int64 (sendCount g + 1);
     successCount := successCount g; failCount := failCount g;
     minTs := minTs g; maxTs := maxTs g; totalTs := totalTs g |}.

Definition incSuccessCount (g : globals) : globals :=
  {| timeout := timeout g; count := count g; size := size g;
     sendCount := sendCount g;
     successCount := int64 (successCount g + 1); failCount := failCount g;
     minTs := minTs g; maxTs := maxTs g; totalTs := totalTs g |}.

Definition incFailCount (g : globals) : globals :=
  {| timeout := timeout g; count := count g; size := size g;
     sendCount := sendCount g;
     successCount := successCount g; failCount := int64 (failCount g + 1);
     minTs := minTs g; maxTs := maxTs g; totalTs := totalTs g |}.

(** Lines 105-111: [totalTs += tSpend], then the two comparisons. *)
Definition recordTs (g : globals) (tSpend : Z) : globals :=
  {| timeout := timeout g; count := count g; size := size g;
     sendCount := sendCount g;
     successCount := successCount g; failCount := failCount g;
     minTs := if minTs g >? tSpend then tSpend else minTs g;
     maxTs := if maxTs g <? tSpend then tSpend else maxTs g;
     totalTs := int64 (totalTs g + tSpend) |}.

(** ** The request loop (ping, lines 55-120) *)

(** The lines the loop prints. *)
Inductive line : Type :=
| RequestFailed                                   (* line 96 *)
| RequestTimedOut                                 (* line 115 *)
| Reply (a b c d : byte) (bytes time : Z) (ttl : byte).  (* line 119 *)

(** The four ways an iteration ends: the three [continue]s and the end of
    the body. *)
Inductive outcome : Type :=
| ChecksumFailed   (* line 82 *)
| WriteFailed      (* line 97 *)
| ReadFailed       (* line 116 *)
| Replied.         (* line 119 *)

(** The variables, what has been printed and how each iteration so far
    ended (the last is a ghost: the program keeps no such record). *)
Record session : Type := {
  vars : globals;
  printed : list line;
  outcomes : list outcome
}.

Definition finish (g : globals) (s : session) (ls : list line) (o : outcome)
  : session :=
  {| vars := g; printed := printed s ++ ls; outcomes := outcomes s ++ [o] |}.

(** Lines 94-119: the datagram is written and the answer awaited; [g]
    holds the variables as they are by then. *)
Definition exchange (g : globals) (s : session) (r : response)
  : result session :=
  match r with
  | WriteErr _ =>
      Ok (finish (incFailCount g) s [RequestFailed] WriteFailed)
  | ReadErr tSpend =>
      let g := recordTs g tSpend in
      Ok (finish (incFailCount g) s [RequestTimedOut] ReadFailed)
  | ReadOk tSpend dgram =>
      let '(buf, n) := readInto dgram in
      let g := recordTs g tSpend in
      b12 <- index buf 12 ;;
      b13 <- index buf 13 ;;
      b14 <- index buf 14 ;;
      b15 <- index buf 15 ;;
      b8 <- index buf 8 ;;
      Ok (finish (incSuccessCount g) s
            [Reply b12 b13 b14 b15 (int64 (n - 28)) tSpend b8] Replied)
  end.

(** The body of the loop for index [i]. *)
Definition attempt (conn : transport) (i : Z) (s : session) : result session :=
  let g := incSendCount (vars s) in
  built <- buildPacket i (size g) ;;
  match built with
  | inr _ => Ok (finish (incFailCount g) s [] ChecksumFailed)
  | inl data => exchange g s (conn i data)
  end.

(** [for i := 0; i < count; i++ { ... }], with [n] iterations left.  [i]
    stays below [count], so [i++] does not wrap. *)
Fixpoint pingLoop (conn : transport) (n : nat) (i : Z) (s : session)
  : result session :=
  match n with
  | O => Ok s
  | S n' => s' <- attempt conn i s ;; pingLoop conn n' (i + 1) s'
  end.

Definition start (g : globals) : session :=
  {| vars := g; printed := []; outcomes := [] |}.

(** The loop of a whole run. *)
Definition pingRequests (conn : transport) (g : globals) : result session :=
  pingLoop conn (Z.to_nat (count g)) 0 (start g).

(** ** The summary (ping, lines 123-124) *)

(** [float64(n)] for an [int] [n]: the nearest double. *)
Definition float64_of_int (n : Z) : float :=
  SF2Prim (binary_normalize prec emax n 0 false).

(** [a / b] on [int64]: truncated, panicking on a zero divisor. *)
Definition quo64 (a b : Z) : result Z :=
  if b =? 0 then Panic IntegerDivideByZero else Ok (int64 (Z.quot a b)).

(** The operands of the final [fmt.Printf], the remote address apart. *)
Record summary : Type := {
  sent : Z;
  received : Z;
  lost : Z;
  lossRatio : float;   (* printed with the verb %.2f and a percent sign *)
  shortest : Z;
  longest : Z;
  average : Z
}.

(** The operands are evaluated before anything is printed: a panic in
    one of them leaves no summary at all. *)
Definition summarize (g : globals) : result summary :=
  let ratio := PrimFloat.div (float64_of_int (failCount g))
                             (float64_of_int (sendCount g)) in
  avg <- quo64 (totalTs g) (int64 (sendCount g)) ;;
  Ok {| sent := sendCount g; received := successCount g; lost := failCount g;
        lossRatio := ratio;
        shortest := minTs g; longest := maxTs g; average := avg |}.

(** [ping] once the connection is open: the loop, then the summary. *)
Definition ping (conn : transport) (g : globals)
  : result (list line * summary) :=
  s <- pingRequests conn g ;;
  sm <- summarize (vars s) ;;
  Ok (printed s, sm).

(** *** The verb %.2f

    [fmt] prints a double with two digits after the point, the exact
    value rounded to the nearest hundredth, ties to the even one. *)

(** [m * 2^e] rounded to the nearest integer, ties to even. *)
Definition roundHalfEven (m e : Z) : Z :=
  if 0 <=? e then m * 2 ^ e
  else
    let d := 2 ^ (- e) in
    let q := m / d in
    let r := m mod d in
    if 2 * r <? d then q
    else if d <? 2 * r then q + 1
    else if Z.even q then q else q + 1.

Definition decimal (n : Z) : string :=
  NilZero.string_of_uint (N.to_uint (Z.to_N n)).

Definition twoDigits (n : Z) : string :=
  ((if (n <? 10)%Z then "0" else "") ++ decimal n)%string.

Definition fmt_2f (f : float) : string :=
  match Prim2SF f with
  | S754_nan => "NaN"
  | S754_infinity sgn => if sgn then "-Inf" else "+Inf"
  | S754_zero sgn => ((if sgn then "-" else "") ++ "0.00")%string
  | S754_finite sgn m e =>
      let h := roundHalfEven (100 * Z.pos m) e in
      ((if sgn then "-" else "") ++ decimal (h / 100) ++ "."
         ++ twoDigits (h mod 100))%string
  end.

(** ** Reading the results *)

(** The byte at offset [k] as a number, if there is one. *)
Definition octet (data : list byte) (k : nat) : option Z :=
  (fun b => Z.of_N (Byte.to_N b)) <$> data !! k.

(** [t] has been fed into the statistics on the way from [g] to [g']. *)
Definition fedInto (t : Z) (g g' : globals) : Prop :=
  totalTs g' = int64 (totalTs g + t)
  /\ minTs g' = Z.min (minTs g) t
  /\ maxTs g' = Z.max (maxTs g) t.

(** The statistics are the same in [g] and [g']. *)
Definition sameTs (g g' : globals) : Prop :=
  totalTs g' = totalTs g /\ minTs g' = minTs g /\ maxTs g' = maxTs g.

(** The counters after [i] iterations of a run. *)
Definition counted (i : Z) (s : session) : Prop :=
  sendCount (vars s) = i
  /\ successCount (vars s) + failCount (vars s) = i
  /\ 0 <= successCount (vars s)
  /\ 0 <= failCount (vars s)
  /\ length (outcomes s) = Z.to_nat i
  /\ ~ In ChecksumFailed (outcomes s).

(** ** The Internet checksum, as the specification words it

    A second definition, written from the description of the algorithm
    and not from the code, to compare [checkSum] with. *)
Module RFC1071.

(** The data as sixteen-bit big-endian words, [byte[2k] << 8 | byte[2k+1]];
    an unpaired last byte counts for its own value. *)
Fixpoint words (data : list byte) : list N :=
  match data with
  | b0 :: b1 :: rest =>
      N.lor (N.shiftl (Byte.to_N b0) 8) (Byte.to_N b1) :: words rest
  | [b] => [Byte.to_N b]
  | [] => []
  end.

(** The words summed into a thirty-two-bit accumulator. *)
Definition accumulate (ws : list N) : N :=
  fold_left (fun acc w => ((acc + w) mod 2 ^ 32)%N) ws 0%N.

(** Adding the high sixteen bits to the low sixteen, again and again,
    until the high sixteen bits are zero. *)
Inductive foldsTo : N -> N -> Prop :=
| folds_done (s : N) :
    (s / 2 ^ 16 = 0)%N -> foldsTo s s
| folds_step (s r : N) :
    (s / 2 ^ 16 <> 0)%N ->
    foldsTo (s / 2 ^ 16 + s mod 2 ^ 16)%N r -> foldsTo s r.

(** The complement of a sixteen-bit value. *)
Definition complement (r : N) : N := N.lxor r 0xFFFF.

Definition checksum (data : list byte) (c : N) : Prop :=
  exists r, foldsTo (accumulate (words data)) r /\ c = complement r.

End RFC1071.

(** ** Further readings of the checksum *)

(** The words of the data summed without a bound. *)
Definition wordSum (data : list byte) : N :=
  fold_right N.add 0%N (RFC1071.words data).

(** A sum reduced with end-around carry: 0 for 0, and for any other sum
    its residue modulo 65535 taken between 1 and 65535. *)
Definition endAround (x : N) : N :=
  (if x =? 0 then 0 else 1 + (x - 1) mod 65535)%N.

(** ** Further readings of a run *)

(** How many elements of a list pass a test. *)
Fixpoint tally {A : Type} (p : A -> bool) (l : list A) : Z :=
  match l with
  | [] => 0
  | a :: l' => (if p a then 1 else 0) + tally p l'
  end.

Definition isReply (ln : line) : bool :=
  match ln with
  | Reply _ _ _ _ _ _ _ => true
  | RequestFailed | RequestTimedOut => false
  end.

Definition isReadOk (r : response) : bool :=
  match r with
  | ReadOk _ _ => true
  | WriteErr _ | ReadErr _ => false
  end.

(** The datagram iteration [i] writes when the payload size is [l]. *)
Definition request (i l : Z) : list byte :=
  match buildPacket i l with
  | Ok (inl data) => data
  | Ok (inr _) | Panic _ => []
  end.

(** What the transport does in each of the first [n] iterations. *)
Definition answers (conn : transport) (l : Z) (n : nat) : list response :=
  map (fun k => conn (Z.of_nat k) (request (Z.of_nat k) l)) (seq 0 n).

(** The elapsed times of the exchanges in which the datagram was
    written, in order. *)
Fixpoint timings (rs : list response) : list Z :=
  match rs with
  | [] => []
  | r :: rs' => if transmitted r then elapsed r :: timings rs' else timings rs'
  end.

Definition total (ts : list Z) : Z := fold_right Z.add 0 ts.

(** The variables after the exchange that [r] describes. *)
Definition settle (g : globals) (r : response) : globals :=
  match r with
  | WriteErr _ => incFailCount g
  | ReadErr t => incFailCount (recordTs g t)
  | ReadOk t _ => incSuccessCount (recordTs g t)
  end.

(** The line a failed exchange prints. *)
Definition failureLine (r : response) : line :=
  if transmitted r then RequestTimedOut else RequestFailed.

(** The variables and the output after [i] iterations with payload size
    [l], read off what the transport did. *)
Definition recorded (conn : transport) (l i : Z) (s : session) : Prop :=
  size (vars s) = l
  /\ sendCount (vars s) = i
  /\ successCount (vars s) = tally isReadOk (answers conn l (Z.to_nat i))
  /\ failCount (vars s) = i - tally isReadOk (answers conn l (Z.to_nat i))
  /\ length (printed s) = Z.to_nat i
  /\ tally isReply (printed s) = tally isReadOk (answers conn l (Z.to_nat i))
  /\ minTs (vars s)
     = fold_right Z.min MaxInt32 (timings (answers conn l (Z.to_nat i)))
  /\ maxTs (vars s)
     = fold_right Z.max 0 (timings (answers conn l (Z.to_nat i))).

(** [totalTs] after [i] iterations in which no exchange took less than 0
    or more than [T] milliseconds. *)
Definition summed (conn : transport) (T l i : Z) (s : session) : Prop :=
  size (vars s) = l
  /\ totalTs (vars s) = total (timings (answers conn l (Z.to_nat i)))
  /\ 0 <= totalTs (vars s) <= i * T.

(** [totalTs] after [i] iterations with payload size [l]: the sum of the
    elapsed times of the written exchanges, in [int64] arithmetic. *)
Definition wrapped (conn : transport) (l i : Z) (s : session) : Prop :=
  size (vars s) = l
  /\ totalTs (vars s)
     = int64 (total (timings (answers conn l (Z.to_nat i)))).

(** ** The program around the loop (lines 35-53 and 157-177) *)

(** [getArgOfHost]: [None] stands for the usage text followed by
    [os.Exit(0)]. *)
Definition getArgOfHost (Args : list string) : result (option string) :=
  let n := Z.of_nat (length Args) in
  if n <? 2 then Ok None
  else match Args !! Z.to_nat (n - 1) with
       | Some host => Ok (Some host)
       | None => Panic IndexOutOfRange
       end.

(** [net.DialTimeout] for a host and a timeout in milliseconds: the
    connection, if it can be opened. *)
Definition dialer : Type := string -> Z -> option transport.

(** How the program ends. *)
Inductive ending : Type :=
| UsageShown                                  (* line 174, os.Exit(0) *)
| HostNotFound (host : string)                (* line 49, os.Exit(0) *)
| Finished (out : list line) (sm : summary)   (* main returns *)
| Crashed (p : panic).

(** [ping(host)], the dialling included. *)
Definition pingHost (dial : dialer) (host : string) (g : globals) : ending :=
  match dial host (timeout g) with
  | None => HostNotFound host
  | Some conn =>
      match ping conn g with
      | Ok (out, sm) => Finished out sm
      | Panic p => Crashed p
      end
  end.

(** [main], with the three flags as [getArgs] parsed them; a command
    line that the flag package refuses ends the program before. *)
Definition main (w n l : Z) (Args : list string) (dial : dialer) : ending :=
  match getArgOfHost Args with
  | Panic p => Crashed p
  | Ok None => UsageShown
  | Ok (Some host) => pingHost dial host (initial w n l)
  end.

(** * Verification *)

(** ** Arithmetic of the fixed-width types *)

Ltac euclid := zify; Z.to_euclidean_division_equations; lia.

Lemma to_N_lt (b : byte) : (Byte.to_N b < 256)%N.
Proof. pose proof (Byte.to_N_bounded b). lia. Qed.

Lemma to_N_byte_of_N (v : N) : Byte.to_N (byte_of_N v) = (v mod 256)%N.
Proof.
  unfold byte_of_N, uint8. change (2 ^ 8)%N with 256%N.
  destruct (Byte.of_N (v mod 256)) as [b|] eqn:E.
  - now apply Byte.to_of_N.
  - apply Byte.of_N_None_iff in E. pose proof (N.mod_lt v 256). lia.
Qed.

(** A byte shifted into the high half and a byte or-ed into the low half
    do not overlap: the or is a sum. *)
Lemma lor_shiftl_8 (a b : N) :
  (b < 256)%N -> N.lor (N.shiftl a 8) b = (a * 256 + b)%N.
Proof.
  intros Hb.
  rewrite <- N.lxor_lor, <- N.add_nocarry_lxor, N.shiftl_mul_pow2; trivial.
  all: apply N.bits_inj; intros k; rewrite N.land_spec, N.bits_0.
  all: destruct (N.lt_ge_cases k 8) as [Hk|Hk].
  all: try (rewrite N.shiftl_spec_low by trivial; reflexivity).
  all: rewrite <- (N.mod_small b (2 ^ 8)) by (change (2 ^ 8)%N with 256%N; lia).
  all: rewrite (N.mod_pow2_bits_high b 8 k) by trivial; apply andb_false_r.
Qed.

(** Flipping the low [n] bits of an [n]-bit value. *)
Lemma lxor_ones_low (n r : N) :
  (r < 2 ^ n)%N -> N.lxor r (N.ones n) = (N.ones n - r)%N.
Proof.
  intros Hr.
  assert (H : (N.lxor r (N.ones n) + r = N.ones n)%N).
  { rewrite N.add_nocarry_lxor.
    - rewrite N.lxor_comm, <- N.lxor_assoc, N.lxor_nilpotent. apply N.lxor_0_l.
    - apply N.bits_inj; intros k.
      rewrite N.land_spec, N.lxor_spec, N.bits_0.
      destruct (N.testbit r k) eqn:E; [|apply andb_false_r].
      destruct (N.lt_ge_cases k n) as [Hk|Hk].
      + rewrite N.ones_spec_low by trivial. reflexivity.
      + rewrite <- (N.mod_small r (2 ^ n)), N.mod_pow2_bits_high in E
          by trivial. discriminate. }
  lia.
Qed.

Lemma complement_sub (r : N) :
  (r < 2 ^ 16)%N -> RFC1071.complement r = (65535 - r)%N.
Proof.
  intros Hr. unfold RFC1071.complement.
  change 0xFFFF%N with (N.ones 16). now rewrite lxor_ones_low.
Qed.

(** On a sixteen-bit value, flipping thirty-two bits and keeping the low
    sixteen flips the sixteen. *)
Lemma uint16_not32 (r : N) :
  (r < 2 ^ 16)%N -> uint16 (not32 r) = (65535 - r)%N.
Proof.
  intros Hr. unfold uint16, not32, N.lnot.
  rewrite lxor_ones_low by (change (2 ^ 16)%N with 65536%N in Hr;
                            change (2 ^ 32)%N with 4294967296%N; lia).
  change (N.ones 32) with 4294967295%N.
  change (2 ^ 16)%N with 65536%N in *. euclid.
Qed.

(** ** The two loops of checkSum *)

Lemma pairLoop_stop (data : list byte) (len idx : Z) (sum : N) :
  len <= 1 -> pairLoop data len idx sum = Ok (len, idx, sum).
Proof.
  intros H. rewrite pairLoop_equation_1.
  destruct (Z_gt_dec len 1); [lia | reflexivity].
Qed.

Lemma pairLoop_next (data : list byte) (len idx : Z) (sum : N) :
  1 < len ->
  pairLoop data len idx sum =
  (b0 <- index data idx ;;
   b1 <- index data (idx + 1) ;;
   pairLoop data (len - 2) (idx + 2)
     (uint32 (sum + uint32 (uint32 (N.shiftl (Byte.to_N b0) 8)
                            + Byte.to_N b1)))).
Proof.
  intros H. rewrite pairLoop_equation_1.
  destruct (Z_gt_dec len 1); [reflexivity | lia].
Qed.

Lemma foldLoop_stop (sum : N) : (sum < 2 ^ 16)%N -> foldLoop sum = sum.
Proof.
  intros H. rewrite foldLoop_equation_1.
  destruct (N.eq_dec (N.shiftr sum 16) 0%N) as [E|Hne]; [reflexivity|].
  exfalso; apply Hne. rewrite N.shiftr_div_pow2. now apply N.div_small.
Qed.

Lemma foldLoop_next (sum : N) :
  (2 ^ 16 <= sum < 2 ^ 32)%N ->
  foldLoop sum = foldLoop (sum / 2 ^ 16 + sum mod 2 ^ 16)%N.
Proof.
  intros H. rewrite foldLoop_equation_1.
  destruct (N.eq_dec (N.shiftr sum 16) 0%N) as [E|Hne].
  - exfalso. rewrite N.shiftr_div_pow2 in E.
    change (2 ^ 16)%N with 65536%N in *. euclid.
  - cbn [foldLoop_unfold_clause_1]. f_equal.
    unfold uint32, uint16. rewrite N.shiftr_div_pow2.
    change (2 ^ 16)%N with 65536%N in *.
    change (2 ^ 32)%N with 4294967296%N in *. euclid.
Qed.

(** The loop runs at most twice on thirty-two bits, and what it leaves is
    the sum reduced modulo [2^16 - 1], with 65535 and not 0 standing for
    the nonzero multiples. *)
Lemma foldLoop_closed (sum : N) :
  (sum < 2 ^ 32)%N ->
  foldLoop sum = (if sum =? 0 then 0 else 1 + (sum - 1) mod 65535)%N.
Proof.
  intros H.
  destruct (N.lt_ge_cases sum (2 ^ 16)) as [Hs|Hs].
  { rewrite foldLoop_stop by trivial.
    destruct (N.eqb_spec sum 0%N); [trivial|].
    change (2 ^ 16)%N with 65536%N in *. euclid. }
  rewrite foldLoop_next by auto.
  set (s1 := (sum / 2 ^ 16 + sum mod 2 ^ 16)%N).
  assert (H1 : (s1 < 131071)%N /\ (0 < s1)%N
               /\ ((s1 - 1) mod 65535 = (sum - 1) mod 65535)%N).
  { subst s1. change (2 ^ 16)%N with 65536%N in *.
    change (2 ^ 32)%N with 4294967296%N in *. euclid. }
  destruct H1 as (Hlt & Hpos & Hmod).
  destruct (N.eqb_spec sum 0%N) as [->|_]; [discriminate|].
  rewrite <- Hmod. clearbody s1. clear Hmod H Hs sum.
  destruct (N.lt_ge_cases s1 (2 ^ 16)) as [Hs|Hs].
  { rewrite foldLoop_stop by trivial.
    change (2 ^ 16)%N with 65536%N in *. euclid. }
  rewrite foldLoop_next by (change (2 ^ 32)%N with 4294967296%N; lia).
  rewrite foldLoop_stop; change (2 ^ 16)%N with 65536%N in *; euclid.
Qed.

Lemma foldLoop_lt (sum : N) : (sum < 2 ^ 32)%N -> (foldLoop sum < 2 ^ 16)%N.
Proof.
  intros H. rewrite foldLoop_closed by trivial.
  change (2 ^ 16)%N with 65536%N.
  destruct (N.eqb_spec sum 0%N); euclid.
Qed.

(** ** checkSum computes the specified sum *)

Lemma list_pair_ind {A : Type} (P : list A -> Prop) :
  P [] -> (forall a, P [a]) ->
  (forall a b l, P l -> P (a :: b :: l)) ->
  forall l, P l.
Proof.
  intros H0 H1 H2.
  assert (H : forall l, P l /\ forall a, P (a :: l)).
  { induction l as [|a l [IH1 IH2]]; split; auto. }
  apply H.
Qed.

Lemma index_middle (pre : list byte) (b : byte) (rest : list byte) :
  index (pre ++ b :: rest) (Z.of_nat (length pre)) = Ok b.
Proof.
  unfold index.
  destruct (Z.ltb_spec (Z.of_nat (length pre)) 0) as [H|_]; [lia|].
  now rewrite Nat2Z.id, list_lookup_middle.
Qed.

Lemma add_word (sum : N) (b0 b1 : byte) :
  uint32 (sum + uint32 (uint32 (N.shiftl (Byte.to_N b0) 8) + Byte.to_N b1))
  = ((sum + N.lor (N.shiftl (Byte.to_N b0) 8) (Byte.to_N b1)) mod 2 ^ 32)%N.
Proof.
  pose proof (to_N_lt b0). pose proof (to_N_lt b1).
  rewrite lor_shiftl_8 by trivial. rewrite N.shiftl_mul_pow2.
  unfold uint32.
  change (2 ^ 8)%N with 256%N; change (2 ^ 32)%N with 4294967296%N.
  f_equal. euclid.
Qed.

(** The first loop leaves either nothing or one byte unread, and with
    that byte added its sum is the accumulator of the specification. *)
Lemma pairLoop_words (data pre : list byte) (sum : N) :
  exists len idx sum',
    pairLoop (pre ++ data) (Z.of_nat (length data)) (Z.of_nat (length pre)) sum
    = Ok (len, idx, sum')
    /\ (if len =? 1
        then exists b, index (pre ++ data) idx = Ok b
                       /\ uint32 (sum' + Byte.to_N b)
                          = fold_left (fun acc w => ((acc + w) mod 2 ^ 32)%N)
                              (RFC1071.words data) sum
        else sum' = fold_left (fun acc w => ((acc + w) mod 2 ^ 32)%N)
                      (RFC1071.words data) sum).
Proof.
  revert pre sum. induction data as [|b|b0 b1 rest IH] using list_pair_ind;
    intros pre sum.
  - exists 0, (Z.of_nat (length pre)), sum. split; [|reflexivity].
    now apply pairLoop_stop.
  - exists 1, (Z.of_nat (length pre)), sum. split.
    + now apply pairLoop_stop.
    + exists b. split; [apply index_middle | reflexivity].
  - rewrite pairLoop_next by (cbn [length]; lia).
    rewrite index_middle. cbn [bind].
    replace (Z.of_nat (length pre) + 1)
      with (Z.of_nat (length (pre ++ [b0]))) by (rewrite length_app; simpl; lia).
    replace (pre ++ b0 :: b1 :: rest) with ((pre ++ [b0]) ++ b1 :: rest)
      by now rewrite <- app_assoc.
    rewrite index_middle. cbn [bind].
    replace ((pre ++ [b0]) ++ b1 :: rest) with ((pre ++ [b0; b1]) ++ rest)
      by now rewrite <- !app_assoc.
    replace (Z.of_nat (length (b0 :: b1 :: rest)) - 2)
      with (Z.of_nat (length rest)) by (cbn [length]; lia).
    replace (Z.of_nat (length pre) + 2)
      with (Z.of_nat (length (pre ++ [b0; b1])))
      by (rewrite length_app; simpl; lia).
    rewrite add_word.
    destruct (IH (pre ++ [b0; b1])
                ((sum + N.lor (N.shiftl (Byte.to_N b0) 8) (Byte.to_N b1))
                   mod 2 ^ 32)%N)
      as (len & idx & sum' & Hloop & Hrest).
    exists len, idx, sum'. split; [exact Hloop | exact Hrest].
Qed.

Lemma accumulate_lt (ws : list N) : (RFC1071.accumulate ws < 2 ^ 32)%N.
Proof.
  unfold RFC1071.accumulate.
  assert (H : forall acc, (acc < 2 ^ 32)%N ->
     (fold_left (fun acc w => ((acc + w) mod 2 ^ 32)%N) ws acc < 2 ^ 32)%N).
  { induction ws as [|w ws IH]; intros acc Hacc; [exact Hacc|].
    apply IH. now apply N.mod_lt. }
  apply H. reflexivity.
Qed.

(** What [checkSum] returns, in closed form. *)
Lemma checkSum_eq (data : list byte) :
  checkSum data
  = Ok (uint16 (not32 (foldLoop (RFC1071.accumulate (RFC1071.words data)))),
        None).
Proof.
  unfold checkSum, RFC1071.accumulate.
  destruct (pairLoop_words data [] 0%N) as (len & idx & sum & Hloop & Hrest).
  cbn [app length] in Hloop, Hrest. change (Z.of_nat 0) with 0 in Hloop.
  rewrite Hloop. cbn [bind].
  destruct (len =? 1).
  - destruct Hrest as (b & -> & <-). reflexivity.
  - subst sum. reflexivity.
Qed.

Lemma foldLoop_foldsTo (sum : N) :
  (sum < 2 ^ 32)%N -> RFC1071.foldsTo sum (foldLoop sum).
Proof.
  induction sum as [sum IH] using (well_founded_induction N.lt_wf_0).
  intros Hlt.
  destruct (N.lt_ge_cases sum (2 ^ 16)) as [Hs|Hs].
  - rewrite foldLoop_stop by trivial.
    apply RFC1071.folds_done. now apply N.div_small.
  - rewrite foldLoop_next by auto.
    change (2 ^ 16)%N with 65536%N in *.
    change (2 ^ 32)%N with 4294967296%N in *.
    apply RFC1071.folds_step; [euclid|].
    apply IH; change (2 ^ 16)%N with 65536%N; euclid.
Qed.

Lemma foldsTo_unique (s r r' : N) :
  RFC1071.foldsTo s r -> RFC1071.foldsTo s r' -> r = r'.
Proof.
  intros H; revert r'.
  induction H as [s Hs|s r Hs _ IH]; intros r' H'; inversion H'; subst;
    solve [reflexivity | contradiction | now apply IH].
Qed.

(** ** Replacing the checksum field *)

Lemma store_in_range (data : list byte) (i : Z) (b : byte) :
  0 <= i < Z.of_nat (length data) ->
  store data i b = Ok (<[Z.to_nat i := b]> data).
Proof.
  intros H. unfold store.
  destruct (Z.ltb_spec i 0); [lia|].
  destruct (Z.leb_spec (Z.of_nat (length data)) i); [lia|]. reflexivity.
Qed.

Lemma putCheckSum_field (a b c d : byte) (rest : list byte) (cs : N) :
  putCheckSum (a :: b :: c :: d :: rest) cs
  = Ok (a :: b :: byte_of_N (N.shiftr cs 8) :: byte_of_N cs :: rest).
Proof.
  unfold putCheckSum.
  rewrite store_in_range by (cbn [length]; lia). cbn [bind].
  rewrite store_in_range by (rewrite length_insert; cbn [length]; lia).
  reflexivity.
Qed.

(** The two bytes [putCheckSum] writes read back as the checksum. *)
Lemma stamped_word (cs : N) :
  (cs < 2 ^ 16)%N ->
  N.lor (N.shiftl (Byte.to_N (byte_of_N (N.shiftr cs 8))) 8)
        (Byte.to_N (byte_of_N cs)) = cs.
Proof.
  intros H. rewrite lor_shiftl_8 by apply to_N_lt.
  rewrite !to_N_byte_of_N, N.shiftr_div_pow2.
  change (2 ^ 8)%N with 256%N; change (2 ^ 16)%N with 65536%N in H. euclid.
Qed.

(** The accumulator is the plain sum of the words, reduced. *)
Lemma accumulate_sum (ws : list N) :
  RFC1071.accumulate ws = (fold_right N.add 0%N ws mod 2 ^ 32)%N.
Proof.
  unfold RFC1071.accumulate.
  assert (H : forall acc,
    (fold_left (fun acc w => ((acc + w) mod 2 ^ 32)%N) ws acc mod 2 ^ 32
     = (acc + fold_right N.add 0 ws) mod 2 ^ 32)%N).
  { induction ws as [|w ws IH]; intros acc; cbn [fold_left fold_right].
    - now rewrite N.add_0_r.
    - rewrite IH, N.Div0.add_mod_idemp_l. f_equal. lia. }
  specialize (H 0%N). rewrite N.add_0_l in H. rewrite <- H.
  symmetry. apply N.mod_small. apply accumulate_lt.
Qed.

(** With the complement of its folded sum added, a thirty-two-bit sum
    folds to [0xFFFF]; the addition does not even wrap. *)
Lemma fold_with_complement (sum : N) :
  (sum < 2 ^ 32)%N ->
  foldLoop ((sum + (65535 - foldLoop sum)) mod 2 ^ 32) = 65535%N.
Proof.
  intros H.
  rewrite (foldLoop_closed ((sum + (65535 - foldLoop sum)) mod 2 ^ 32))
    by now apply N.mod_lt.
  rewrite (foldLoop_closed sum) by trivial.
  change (2 ^ 32)%N with 4294967296%N in *.
  destruct (N.eqb_spec sum 0%N) as [->|Hne]; [reflexivity|].
  destruct (N.eqb_spec
              ((sum + (65535 - (1 + (sum - 1) mod 65535))) mod 4294967296) 0%N)
    as [E|_]; euclid.
Qed.

(** ** The checksum *)

(** C1.  For every byte sequence, [checkSum] returns without error the
    checksum the specification describes, and that description admits no
    other value: the big-endian words and a last odd byte summed in
    thirty-two bits, the sum folded until its high half is zero, the
    sixteen-bit result complemented.  The three vectors: the empty
    sequence gives 0xFFFF, [00 01] gives 0xFFFE and [FF FF 01] gives
    0xFFFE. *)
Theorem checkSum_rfc1071 :
  (forall data : list byte,
     exists c, checkSum data = Ok (c, None)
               /\ RFC1071.checksum data c
               /\ forall c', RFC1071.checksum data c' -> c' = c)
  /\ checkSum [] = Ok (0xFFFF%N, None)
  /\ checkSum [x00; x01] = Ok (0xFFFE%N, None)
  /\ checkSum [xff; xff; x01] = Ok (0xFFFE%N, None).
Proof.
  split; [|repeat split; vm_compute; reflexivity].
  intros data. rewrite checkSum_eq.
  set (s := RFC1071.accumulate (RFC1071.words data)).
  assert (Hs : (s < 2 ^ 32)%N) by apply accumulate_lt.
  pose proof (foldLoop_lt s Hs) as Hr.
  pose proof (foldLoop_foldsTo s Hs) as Hf.
  exists (uint16 (not32 (foldLoop s))). split; [reflexivity|].
  assert (Hc : uint16 (not32 (foldLoop s)) = RFC1071.complement (foldLoop s))
    by now rewrite uint16_not32, complement_sub.
  split.
  - exists (foldLoop s). now split.
  - intros c' (r & Hr' & ->). rewrite Hc. f_equal.
    eapply foldsTo_unique; eassumption.
Qed.

(** C9.  In a buffer of at least four bytes, zero the checksum field,
    compute the checksum, write it to offsets 2 and 3, high byte first,
    and compute the checksum again: the second one is zero.  ([putCheckSum]
    with the value 0 is what zeroes the field.) *)
Theorem checkSum_of_stamped_is_zero (buf : list byte) :
  (4 <= length buf)%nat ->
  exists zeroed c stamped,
    putCheckSum buf 0 = Ok zeroed
    /\ checkSum zeroed = Ok (c, None)
    /\ putCheckSum zeroed c = Ok stamped
    /\ checkSum stamped = Ok (0%N, None).
Proof.
  intros Hlen.
  destruct buf as [|a [|b [|c0 [|d0 rest]]]]; cbn [length] in Hlen; try lia.
  rewrite putCheckSum_field.
  change (byte_of_N (N.shiftr 0 8)) with x00. change (byte_of_N 0) with x00.
  eexists _, _, _. split; [reflexivity|].
  rewrite checkSum_eq. split; [reflexivity|].
  rewrite putCheckSum_field. split; [reflexivity|].
  rewrite checkSum_eq. do 2 f_equal.
  set (w := N.lor (N.shiftl (Byte.to_N a) 8) (Byte.to_N b)).
  set (t := fold_right N.add 0%N (RFC1071.words rest)).
  assert (H0 : RFC1071.accumulate (RFC1071.words (a :: b :: x00 :: x00 :: rest))
               = ((w + t) mod 2 ^ 32)%N).
  { rewrite accumulate_sum. cbn [RFC1071.words fold_right].
    change (N.lor (N.shiftl (Byte.to_N x00) 8) (Byte.to_N x00)) with 0%N.
    now rewrite N.add_0_l. }
  rewrite H0.
  set (s := ((w + t) mod 2 ^ 32)%N).
  assert (Hs : (s < 2 ^ 32)%N) by now apply N.mod_lt.
  pose proof (foldLoop_lt s Hs) as Hr.
  rewrite (uint16_not32 (foldLoop s)) by trivial.
  rewrite accumulate_sum. cbn [RFC1071.words fold_right].
  rewrite stamped_word
    by (change (2 ^ 16)%N with 65536%N in *; lia).
  fold w t.
  replace ((w + (65535 - foldLoop s + t)) mod 2 ^ 32)%N
    with ((s + (65535 - foldLoop s)) mod 2 ^ 32)%N.
  - rewrite fold_with_complement by trivial. reflexivity.
  - subst s. rewrite N.Div0.add_mod_idemp_l. f_equal. lia.
Qed.

(** A buffer to try it on. *)
Lemma checkSum_of_stamped_is_zero_witness :
  exists zeroed c stamped,
    putCheckSum [x08; x00; x12; x34; x00; x01; x00; x01; x61] 0 = Ok zeroed
    /\ checkSum zeroed = Ok (c, None)
    /\ putCheckSum zeroed c = Ok stamped
    /\ checkSum stamped = Ok (0%N, None).
Proof.
  apply (checkSum_of_stamped_is_zero
           [x08; x00; x12; x34; x00; x01; x00; x01; x61]).
  cbn [length]. lia.
Defined.

(** ** The packet builder *)

Lemma make_ok (size : Z) :
  0 <= size -> make size = Ok (replicate (Z.to_nat size) x00).
Proof. intros H. unfold make. destruct (Z.ltb_spec size 0); [lia|reflexivity]. Qed.

Lemma make_negative (size : Z) :
  size < 0 -> make size = Panic MakeSliceLenOutOfRange.
Proof. intros H. unfold make. destruct (Z.ltb_spec size 0); [reflexivity|lia]. Qed.

(** The datagram of iteration [i], in closed form. *)
Lemma buildPacket_eq (i size : Z) :
  0 <= size ->
  exists cs,
    checkSum ([x08; x00; x00; x00]
                ++ bigEndian16 (uint16_of_int i)
                ++ bigEndian16 (uint16_of_int i)
                ++ replicate (Z.to_nat size) x00) = Ok (cs, None)
    /\ (cs < 2 ^ 16)%N
    /\ buildPacket i size
       = Ok (inl ([x08; x00; byte_of_N (N.shiftr cs 8); byte_of_N cs]
                    ++ bigEndian16 (uint16_of_int i)
                    ++ bigEndian16 (uint16_of_int i)
                    ++ replicate (Z.to_nat size) x00)).
Proof.
  intros Hsize. unfold buildPacket. rewrite make_ok by trivial. cbn [bind].
  unfold binaryWrite.
  cbn [Type_ Code CheckSum ID SeqNum bigEndian16 app].
  change (byte_of_N 8) with x08. change (byte_of_N 0) with x00.
  change (byte_of_N (N.shiftr 0 8)) with x00.
  rewrite checkSum_eq. cbn [bind].
  eexists. split; [reflexivity|]. split.
  - unfold uint16. now apply N.mod_lt.
  - rewrite putCheckSum_field. reflexivity.
Qed.

Lemma buildPacket_negative (i size : Z) :
  size < 0 -> buildPacket i size = Panic MakeSliceLenOutOfRange.
Proof. intros H. unfold buildPacket. now rewrite make_negative. Qed.

Lemma buildPacket_inl (i size : Z) (built : list byte + error) :
  buildPacket i size = Ok built -> exists data, built = inl data.
Proof.
  intros H. destruct (Z.lt_ge_cases size 0) as [Hs|Hs].
  - rewrite buildPacket_negative in H by trivial. discriminate.
  - destruct (buildPacket_eq i size Hs) as (cs & _ & _ & E).
    rewrite E in H. injection H as <-. eauto.
Qed.

Lemma octet_byte_of_N (v : N) (rest pre : list byte) (k : nat) :
  k = length pre ->
  octet (pre ++ byte_of_N v :: rest) k = Some (Z.of_N (v mod 256)).
Proof.
  intros ->. unfold octet.
  now rewrite list_lookup_middle, <- to_N_byte_of_N.
Qed.

(** C2.  For a sequence number [i] that fits sixteen bits and a payload
    size [s >= 0], the datagram built has [8 + s] bytes; byte 0 is 8 and
    byte 1 is 0; bytes 4-5 and bytes 6-7 both hold [i], high byte first;
    and bytes 2-3 hold, high byte first, the checksum of the same
    datagram with its bytes 2 and 3 zero. *)
Theorem buildPacket_layout (i s : Z) :
  0 <= i < 65536 -> 0 <= s ->
  exists data cs,
    buildPacket i s = Ok (inl data)
    /\ Z.of_nat (length data) = 8 + s
    /\ octet data 0 = Some 8
    /\ octet data 1 = Some 0
    /\ checkSum (<[2%nat := x00]> (<[3%nat := x00]> data)) = Ok (cs, None)
    /\ (cs < 2 ^ 16)%N
    /\ octet data 2 = Some (Z.of_N cs / 256)
    /\ octet data 3 = Some (Z.of_N cs mod 256)
    /\ octet data 4 = Some (i / 256)
    /\ octet data 5 = Some (i mod 256)
    /\ octet data 6 = Some (i / 256)
    /\ octet data 7 = Some (i mod 256).
Proof.
  intros Hi Hs.
  destruct (buildPacket_eq i s Hs) as (cs & Hcs & Hlt & Hbuild).
  eexists _, cs. split; [exact Hbuild|].
  unfold bigEndian16 in *. cbn [app] in *.
  assert (Hid : uint16_of_int i = Z.to_N i).
  { unfold uint16_of_int. f_equal. apply Z.mod_small.
    change (2 ^ 16) with 65536. lia. }
  rewrite Hid in *.
  assert (Hhi : Z.of_N (N.shiftr (Z.to_N i) 8 mod 256) = i / 256).
  { rewrite N.shiftr_div_pow2. change (2 ^ 8)%N with 256%N. euclid. }
  assert (Hlo : Z.of_N (Z.to_N i mod 256) = i mod 256) by euclid.
  assert (Hchi : Z.of_N (N.shiftr cs 8 mod 256) = Z.of_N cs / 256).
  { rewrite N.shiftr_div_pow2. change (2 ^ 8)%N with 256%N.
    change (2 ^ 16)%N with 65536%N in Hlt. euclid. }
  assert (Hclo : Z.of_N (cs mod 256) = Z.of_N cs mod 256) by euclid.
  split. { cbn [length]. rewrite length_replicate. lia. }
  split. { reflexivity. }
  split. { reflexivity. }
  split. { cbn. exact Hcs. }
  split. { exact Hlt. }
  split. { rewrite <- Hchi. now apply (octet_byte_of_N _ _ [_; _]). }
  split. { rewrite <- Hclo. now apply (octet_byte_of_N _ _ [_; _; _]). }
  split. { rewrite <- Hhi. now apply (octet_byte_of_N _ _ [_; _; _; _]). }
  split. { rewrite <- Hlo. now apply (octet_byte_of_N _ _ [_; _; _; _; _]). }
  split. { rewrite <- Hhi. now apply (octet_byte_of_N _ _ [_; _; _; _; _; _]). }
  rewrite <- Hlo. now apply (octet_byte_of_N _ _ [_; _; _; _; _; _; _]).
Qed.

(** Sequence number 0x0102 with a payload of three bytes. *)
Lemma buildPacket_layout_witness :
  exists data cs,
    buildPacket 258 3 = Ok (inl data)
    /\ Z.of_nat (length data) = 8 + 3
    /\ octet data 0 = Some 8
    /\ octet data 1 = Some 0
    /\ checkSum (<[2%nat := x00]> (<[3%nat := x00]> data)) = Ok (cs, None)
    /\ (cs < 2 ^ 16)%N
    /\ octet data 2 = Some (Z.of_N cs / 256)
    /\ octet data 3 = Some (Z.of_N cs mod 256)
    /\ octet data 4 = Some (258 / 256)
    /\ octet data 5 = Some (258 mod 256)
    /\ octet data 6 = Some (258 / 256)
    /\ octet data 7 = Some (258 mod 256).
Proof. apply (buildPacket_layout 258 3); lia. Defined.

(** ** One iteration *)

Lemma Ok_inj {A : Type} (a b : A) : Ok a = Ok b -> a = b.
Proof. intros H. now injection H. Qed.

Lemma int64_small (z : Z) : MinInt64 <= z <= MaxInt64 -> int64 z = z.
Proof.
  unfold int64, MinInt64, MaxInt64. intros H.
  change (2 ^ 63) with 9223372036854775808.
  change (2 ^ 64) with 18446744073709551616.
  rewrite Z.mod_small; lia.
Qed.

Lemma bufLen_Z : Z.of_nat bufLen = 65536.
Proof. unfold bufLen. rewrite Z2Nat.id; [reflexivity | discriminate]. Qed.

Lemma readInto_length (dgram : list byte) :
  length (fst (readInto dgram)) = bufLen.
Proof.
  unfold readInto. cbn [fst].
  rewrite length_app, length_replicate, length_take. lia.
Qed.

Lemma readInto_count (dgram : list byte) :
  snd (readInto dgram) = Z.min (Z.of_nat (length dgram)) 65536.
Proof.
  unfold readInto. cbn [snd]. rewrite length_take, <- bufLen_Z. lia.
Qed.

(** The front of the buffer is the datagram. *)
Lemma readInto_front (dgram : list byte) (k : nat) (b : byte) :
  (k < bufLen)%nat -> dgram !! k = Some b -> fst (readInto dgram) !! k = Some b.
Proof.
  intros Hk Hb. unfold readInto. cbn [fst].
  apply lookup_app_l_Some. rewrite lookup_take_lt; trivial.
Qed.

Lemma index_in_range (data : list byte) (i : Z) :
  0 <= i < Z.of_nat (length data) ->
  exists b, data !! Z.to_nat i = Some b /\ index data i = Ok b.
Proof.
  intros H. unfold index. destruct (Z.ltb_spec i 0); [lia|].
  destruct (data !! Z.to_nat i) as [b|] eqn:E; [eauto|].
  apply lookup_ge_None in E. lia.
Qed.

(** A received datagram, whatever it holds, is printed as a reply and
    counted as a success. *)
Lemma exchange_ReadOk (g : globals) (s : session) (t : Z) (dgram : list byte) :
  exists a b c d ttl,
    fst (readInto dgram) !! 12%nat = Some a
    /\ fst (readInto dgram) !! 13%nat = Some b
    /\ fst (readInto dgram) !! 14%nat = Some c
    /\ fst (readInto dgram) !! 15%nat = Some d
    /\ fst (readInto dgram) !! 8%nat = Some ttl
    /\ exchange g s (ReadOk t dgram)
       = Ok (finish (incSuccessCount (recordTs g t)) s
               [Reply a b c d (snd (readInto dgram) - 28) t ttl] Replied).
Proof.
  pose proof (readInto_length dgram) as Hlen.
  pose proof (readInto_count dgram) as Hn.
  unfold exchange. destruct (readInto dgram) as [buf n]. cbn [fst snd] in *.
  assert (Hin : forall k, 0 <= k < 16 -> 0 <= k < Z.of_nat (length buf))
    by (rewrite Hlen, bufLen_Z; lia).
  destruct (index_in_range buf 12) as (a & Ha & ->); [apply Hin; lia|].
  destruct (index_in_range buf 13) as (b & Hb & ->); [apply Hin; lia|].
  destruct (index_in_range buf 14) as (c & Hc & ->); [apply Hin; lia|].
  destruct (index_in_range buf 15) as (d & Hd & ->); [apply Hin; lia|].
  destruct (index_in_range buf 8) as (ttl & Httl & ->); [apply Hin; lia|].
  exists a, b, c, d, ttl. cbn [bind].
  rewrite int64_small by (unfold MinInt64, MaxInt64; lia).
  repeat split; assumption.
Qed.

(** The variables and the outcome after the exchange, case by case. *)
Lemma exchange_effect (g : globals) (s : session) (r : response) :
  exists ls,
    exchange g s r
    = Ok (finish
            match r with
            | WriteErr _ => incFailCount g
            | ReadErr t => incFailCount (recordTs g t)
            | ReadOk t _ => incSuccessCount (recordTs g t)
            end s ls
            match r with
            | WriteErr _ => WriteFailed
            | ReadErr _ => ReadFailed
            | ReadOk _ _ => Replied
            end).
Proof.
  destruct r as [t|t|t dgram]; [eexists; reflexivity ..|].
  destruct (exchange_ReadOk g s t dgram) as (a & b & c & d & ttl & H).
  eexists. apply H.
Qed.

(** An iteration that comes to an end has built a datagram and gone
    through the exchange. *)
Lemma attempt_Ok (conn : transport) (i : Z) (s s' : session) :
  attempt conn i s = Ok s' ->
  exists data,
    buildPacket i (size (vars s)) = Ok (inl data)
    /\ exchange (incSendCount (vars s)) s (conn i data) = Ok s'.
Proof.
  unfold attempt. cbn [size incSendCount].
  destruct (buildPacket i (size (vars s))) as [built|p] eqn:E; [|discriminate].
  destruct (buildPacket_inl _ _ _ E) as (data & ->). cbn [bind]. eauto.
Qed.

Lemma attempt_total (conn : transport) (i : Z) (s : session) :
  0 <= size (vars s) ->
  exists data s',
    buildPacket i (size (vars s)) = Ok (inl data)
    /\ exchange (incSendCount (vars s)) s (conn i data) = Ok s'
    /\ attempt conn i s = Ok s'.
Proof.
  intros Hs. destruct (buildPacket_eq i _ Hs) as (cs & _ & _ & E).
  match type of E with _ = Ok (inl ?d) =>
    destruct (exchange_effect (incSendCount (vars s)) s (conn i d))
      as (ls & Hx)
  end.
  eexists _, _. split; [exact E|]. split; [exact Hx|].
  unfold attempt. cbn [size incSendCount]. rewrite E. cbn [bind]. exact Hx.
Qed.

Lemma attempt_negative (conn : transport) (i : Z) (s : session) :
  size (vars s) < 0 -> attempt conn i s = Panic MakeSliceLenOutOfRange.
Proof.
  intros H. unfold attempt. cbn [size incSendCount].
  now rewrite buildPacket_negative.
Qed.

(** What an iteration does to the variables. *)
Lemma attempt_vars (conn : transport) (i : Z) (s s' : session) :
  attempt conn i s = Ok s' ->
  exists data o,
    buildPacket i (size (vars s)) = Ok (inl data)
    /\ outcomes s' = outcomes s ++ [o]
    /\ o <> ChecksumFailed
    /\ timeout (vars s') = timeout (vars s)
    /\ count (vars s') = count (vars s)
    /\ size (vars s') = size (vars s)
    /\ sendCount (vars s') = int64 (sendCount (vars s) + 1)
    /\ (o = Replied
        /\ successCount (vars s') = int64 (successCount (vars s) + 1)
        /\ failCount (vars s') = failCount (vars s)
        \/ o <> Replied
           /\ successCount (vars s') = successCount (vars s)
           /\ failCount (vars s') = int64 (failCount (vars s) + 1))
    /\ (transmitted (conn i data) = true ->
        fedInto (elapsed (conn i data)) (vars s) (vars s'))
    /\ (transmitted (conn i data) = false -> sameTs (vars s) (vars s')).
Proof.
  intros H. destruct (attempt_Ok _ _ _ _ H) as (data & Hb & Hx).
  destruct (exchange_effect (incSendCount (vars s)) s (conn i data))
    as (ls & Hx').
  rewrite Hx' in Hx. injection Hx as <-.
  exists data. eexists. split; [exact Hb|]. split; [reflexivity|].
  destruct (conn i data) as [t|t|t dgram]; cbn;
    (split; [discriminate|]); repeat (split; [reflexivity|]);
    (split; [first [left; repeat split; congruence
                   | right; repeat split; congruence]|]);
    split; intros Htr; try discriminate;
    unfold fedInto, sameTs; cbn; repeat split;
    first [destruct (Z.gtb_spec (minTs (vars s)) t); lia
          | destruct (Z.ltb_spec (maxTs (vars s)) t); lia].
Qed.

(** ** The loop *)

Section Loop.

Variable conn : transport.

(** An invariant indexed by the loop counter, kept by every iteration
    below [hi], holds when the loop ends. *)
Lemma pingLoop_invariant (P : Z -> session -> Prop) (hi : Z) :
  (forall i s s', 0 <= i < hi -> P i s -> attempt conn i s = Ok s' ->
                  P (i + 1) s') ->
  forall n i s s',
    0 <= i -> i + Z.of_nat n <= hi -> P i s ->
    pingLoop conn n i s = Ok s' -> P (i + Z.of_nat n) s'.
Proof.
  intros Hstep. induction n as [|n IH]; intros i s s' Hi Hhi HP Hrun.
  - cbn in Hrun. injection Hrun as <-. now rewrite Z.add_0_r.
  - cbn [pingLoop] in Hrun.
    destruct (attempt conn i s) as [s1|p] eqn:E; [|discriminate].
    cbn [bind] in Hrun.
    replace (i + Z.of_nat (S n)) with (i + 1 + Z.of_nat n) by lia.
    apply (IH (i + 1) s1); try lia; trivial.
    apply (Hstep i s); trivial. lia.
Qed.

(** With a payload size that [make] accepts the loop comes to its end. *)
Lemma pingLoop_total (n : nat) (i : Z) (s : session) :
  0 <= size (vars s) -> exists s', pingLoop conn n i s = Ok s'.
Proof.
  revert i s. induction n as [|n IH]; intros i s Hs; [cbn; eauto|].
  destruct (attempt_total conn i s Hs) as (data & s1 & _ & _ & E).
  cbn [pingLoop]. rewrite E. cbn [bind]. apply IH.
  destruct (attempt_vars _ _ _ _ E) as (? & ? & _ & _ & _ & _ & _ & -> & _).
  exact Hs.
Qed.

Lemma counted_step (i : Z) (s s' : session) :
  0 <= i < MaxInt64 -> counted i s -> attempt conn i s = Ok s' ->
  counted (i + 1) s'.
Proof.
  intros Hi (Hsent & Hsum & Hsucc & Hfail & Hlen & Hnot) E.
  destruct (attempt_vars _ _ _ _ E)
    as (data & o & _ & Hout & Ho & _ & _ & _ & Hsend & Hcnt & _).
  unfold counted. rewrite Hsend, Hout, length_app, in_app_iff. cbn [length].
  unfold MaxInt64 in Hi.
  assert (Hw : forall z, 0 <= z <= i -> int64 (z + 1) = z + 1)
    by (intros; apply int64_small; unfold MinInt64, MaxInt64; lia).
  rewrite Hw by lia.
  destruct Hcnt as [(_ & -> & ->)|(_ & -> & ->)]; rewrite Hw by lia;
    repeat split; try lia;
    intros [H|[H|[]]]; solve [contradiction | congruence].
Qed.

End Loop.

(** ** The counters *)

Lemma counted_start (g : globals) :
  sendCount g = 0 -> successCount g = 0 -> failCount g = 0 ->
  counted 0 (start g).
Proof.
  intros H1 H2 H3. unfold counted. cbn. rewrite H1, H2, H3.
  repeat split; lia.
Qed.

(** C7.  Every iteration that comes to an end has added one to
    [sendCount] and one to exactly one of [successCount] and [failCount];
    so when the loop of a run ends, whatever the count, the payload size
    and the answers of the transport, [sendCount] is [successCount +
    failCount] (and is the number of iterations).  With a payload size
    that is not negative the loop does come to its end. *)
Theorem sent_is_succeeded_plus_failed (conn : transport) (w n l : Z) :
  n <= MaxInt64 ->
  (forall i s s',
     attempt conn i s = Ok s' ->
     sendCount (vars s') = int64 (sendCount (vars s) + 1)
     /\ (successCount (vars s') = int64 (successCount (vars s) + 1)
         /\ failCount (vars s') = failCount (vars s)
         \/ successCount (vars s') = successCount (vars s)
            /\ failCount (vars s') = int64 (failCount (vars s) + 1)))
  /\ (0 <= l -> exists s, pingRequests conn (initial w n l) = Ok s)
  /\ (forall s,
        pingRequests conn (initial w n l) = Ok s ->
        sendCount (vars s) = Z.max n 0
        /\ sendCount (vars s) = successCount (vars s) + failCount (vars s)).
Proof.
  intros Hn. split; [|split].
  - intros i s s' E.
    destruct (attempt_vars _ _ _ _ E)
      as (data & o & _ & _ & _ & _ & _ & _ & Hsend & Hcnt & _).
    split; [exact Hsend|]. destruct Hcnt as [(_ & H)|(_ & H)]; auto.
  - intros Hl. apply pingLoop_total. exact Hl.
  - intros s Hrun. unfold pingRequests in Hrun. cbn [count initial] in Hrun.
    apply (pingLoop_invariant conn counted (Z.max n 0)) in Hrun.
    + destruct Hrun as (Hsent & Hsum & _). lia.
    + intros i s0 s1 Hi. apply counted_step. lia.
    + lia.
    + lia.
    + now apply counted_start.
Qed.

(** Three requests, of which the second is not answered. *)
Lemma sent_is_succeeded_plus_failed_witness :
  let conn : transport :=
    fun i _ => if i =? 1 then ReadErr 1000 else ReadOk 5 [] in
  exists s,
    pingRequests conn (initial 1000 3 32) = Ok s
    /\ sendCount (vars s) = Z.max 3 0
    /\ sendCount (vars s) = successCount (vars s) + failCount (vars s).
Proof.
  intros conn.
  assert (H : 3 <= MaxInt64) by (unfold MaxInt64; lia).
  destruct (sent_is_succeeded_plus_failed conn 1000 3 32 H)
    as (_ & Htotal & Hend).
  destruct Htotal as (s & Hs); [lia|].
  exists s. split; [exact Hs|]. apply Hend, Hs.
Defined.

(** C10.  [checkSum] returns a nil error on every byte sequence, so that
    no iteration ends at the [continue] of the checksum error: among the
    outcomes of a run there is no [ChecksumFailed]. *)
Theorem checkSum_never_fails :
  (forall data : list byte, exists c, checkSum data = Ok (c, None))
  /\ (forall (conn : transport) (i : Z) (s s' : session),
        attempt conn i s = Ok s' ->
        exists o, outcomes s' = outcomes s ++ [o] /\ o <> ChecksumFailed)
  /\ (forall (conn : transport) (g : globals) (s : session),
        pingRequests conn g = Ok s -> ~ In ChecksumFailed (outcomes s)).
Proof.
  split; [|split].
  - intros data. rewrite checkSum_eq. eauto.
  - intros conn i s s' E.
    destruct (attempt_vars _ _ _ _ E) as (data & o & _ & Hout & Ho & _).
    eauto.
  - intros conn g s Hrun. unfold pingRequests in Hrun.
    apply (pingLoop_invariant conn
             (fun _ s => ~ In ChecksumFailed (outcomes s))
             (Z.of_nat (Z.to_nat (count g)))) in Hrun;
      [exact Hrun | | lia | lia | intros []].
    intros i s0 s1 _ Hnot E.
    destruct (attempt_vars _ _ _ _ E) as (data & o & _ & Hout & Ho & _).
    rewrite Hout, in_app_iff. intros [H|[H|[]]]; [contradiction|congruence].
Qed.

(** Two requests over a transport on which every write fails. *)
Lemma checkSum_never_fails_witness :
  let conn : transport := fun _ _ => WriteErr 0 in
  exists s, pingRequests conn (initial 1000 2 32) = Ok s
            /\ ~ In ChecksumFailed (outcomes s).
Proof.
  intros conn.
  destruct (pingLoop_total conn 2 0 (start (initial 1000 2 32))) as (s & Hs);
    [cbn; lia|].
  exists s. split; [exact Hs|].
  exact (proj2 (proj2 checkSum_never_fails) conn (initial 1000 2 32) s Hs).
Defined.

(** ** The reply *)

(** C8.  Whatever datagram the read returns, with no look at its type,
    identifier or sequence number, the iteration ends as a reply and a
    success; the line it prints takes the address from bytes 12-15 of the
    receive buffer, the TTL from byte 8 and gives [n - 28] as the number
    of bytes, [n] being the length read.  The buffer holds the datagram
    at its front. *)
Theorem any_datagram_is_the_reply
  (conn : transport) (i : Z) (s : session) (t : Z) (dgram : list byte) :
  0 <= size (vars s) ->
  (forall data, buildPacket i (size (vars s)) = Ok (inl data) ->
                conn i data = ReadOk t dgram) ->
  exists a b c d ttl s',
    attempt conn i s = Ok s'
    /\ fst (readInto dgram) !! 12%nat = Some a
    /\ fst (readInto dgram) !! 13%nat = Some b
    /\ fst (readInto dgram) !! 14%nat = Some c
    /\ fst (readInto dgram) !! 15%nat = Some d
    /\ fst (readInto dgram) !! 8%nat = Some ttl
    /\ snd (readInto dgram) = Z.min (Z.of_nat (length dgram)) 65536
    /\ (forall k x, (k < bufLen)%nat -> dgram !! k = Some x ->
                    fst (readInto dgram) !! k = Some x)
    /\ printed s'
       = printed s ++ [Reply a b c d (snd (readInto dgram) - 28) t ttl]
    /\ outcomes s' = outcomes s ++ [Replied]
    /\ successCount (vars s') = int64 (successCount (vars s) + 1)
    /\ failCount (vars s') = failCount (vars s).
Proof.
  intros Hsize Hconn.
  destruct (attempt_total conn i s Hsize) as (data & s' & Hb & Hx & E).
  rewrite (Hconn data Hb) in Hx.
  destruct (exchange_ReadOk (incSendCount (vars s)) s t dgram)
    as (a & b & c & d & ttl & Ha & Hb' & Hc & Hd & Httl & Hx').
  rewrite Hx' in Hx. apply Ok_inj in Hx. subst s'.
  exists a, b, c, d, ttl. eexists. split; [exact E|].
  repeat (split; [assumption|]).
  split; [apply readInto_count|].
  split; [intros k x; apply readInto_front|]. repeat split.
Qed.

(** A datagram that is no echo reply at all: forty bytes of 0x07. *)
Lemma any_datagram_is_the_reply_witness :
  let conn : transport := fun _ _ => ReadOk 5 (replicate 40 x07) in
  let s := start (initial 1000 4 32) in
  exists a b c d ttl s',
    attempt conn 0 s = Ok s'
    /\ fst (readInto (replicate 40 x07)) !! 12%nat = Some a
    /\ fst (readInto (replicate 40 x07)) !! 13%nat = Some b
    /\ fst (readInto (replicate 40 x07)) !! 14%nat = Some c
    /\ fst (readInto (replicate 40 x07)) !! 15%nat = Some d
    /\ fst (readInto (replicate 40 x07)) !! 8%nat = Some ttl
    /\ snd (readInto (replicate 40 x07))
       = Z.min (Z.of_nat (length (replicate 40 x07))) 65536
    /\ (forall k x, (k < bufLen)%nat -> replicate 40 x07 !! k = Some x ->
                    fst (readInto (replicate 40 x07)) !! k = Some x)
    /\ printed s'
       = printed s
         ++ [Reply a b c d (snd (readInto (replicate 40 x07)) - 28) 5 ttl]
    /\ outcomes s' = outcomes s ++ [Replied]
    /\ successCount (vars s') = int64 (successCount (vars s) + 1)
    /\ failCount (vars s') = failCount (vars s).
Proof.
  intros conn s.
  apply (any_datagram_is_the_reply conn 0 s 5 (replicate 40 x07)).
  - cbn. lia.
  - intros data _. reflexivity.
Defined.

(** ** The statistics *)

(** C5, as the code has it.  An iteration whose datagram has been
    written feeds the elapsed time into the statistics, whether the read
    then succeeds, fails or times out: [totalTs] grows by it, [minTs]
    falls to it if it is smaller, [maxTs] rises to it if it is larger.  An
    iteration whose write fails leaves the three as they were. *)
Theorem transmitted_attempts_are_timed
  (conn : transport) (i : Z) (s : session) :
  0 <= size (vars s) ->
  exists data s',
    buildPacket i (size (vars s)) = Ok (inl data)
    /\ attempt conn i s = Ok s'
    /\ (transmitted (conn i data) = true ->
        fedInto (elapsed (conn i data)) (vars s) (vars s'))
    /\ (transmitted (conn i data) = false -> sameTs (vars s) (vars s')).
Proof.
  intros Hsize.
  destruct (attempt_total conn i s Hsize) as (data & s' & Hb & _ & E).
  exists data, s'. split; [exact Hb|]. split; [exact E|].
  destruct (attempt_vars _ _ _ _ E) as (data' & o & Hb' & H).
  rewrite Hb in Hb'. injection Hb' as <-.
  destruct H as (_ & _ & _ & _ & _ & _ & _ & Hfed & Hsame). now split.
Qed.

(** A read that times out after a second. *)
Lemma transmitted_attempts_are_timed_witness :
  let conn : transport := fun _ _ => ReadErr 1000 in
  let s := start (initial 1000 4 32) in
  exists data s',
    buildPacket 0 (size (vars s)) = Ok (inl data)
    /\ attempt conn 0 s = Ok s'
    /\ (transmitted (conn 0 data) = true ->
        fedInto (elapsed (conn 0 data)) (vars s) (vars s'))
    /\ (transmitted (conn 0 data) = false -> sameTs (vars s) (vars s')).
Proof.
  intros conn s. apply (transmitted_attempts_are_timed conn 0 s). cbn. lia.
Defined.

(** C5, as stated, fails: a write that fails after seven milliseconds
    leaves [totalTs] at 0, [minTs] at its initial value and [maxTs] at 0. *)
Lemma write_failure_is_not_timed :
  let conn : transport := fun _ _ => WriteErr 7 in
  let s := start (initial 1000 1 32) in
  exists s', attempt conn 0 s = Ok s'
             /\ outcomes s' = [WriteFailed]
             /\ totalTs (vars s') = 0
             /\ minTs (vars s') = MaxInt32
             /\ maxTs (vars s') = 0
             /\ ~ fedInto 7 (vars s) (vars s').
Proof.
  intros conn s. eexists. split; [vm_compute; reflexivity|].
  repeat (split; [reflexivity|]).
  intros (H & _). vm_compute in H. discriminate H.
Qed.

(** ** The summary *)

(** C3, the code at a run of four requests of which the first times out:
    one of four is lost, and the figure printed before the percent sign
    is the ratio 0.25, not the percentage 25.00. *)
Theorem loss_is_printed_as_ratio :
  let conn : transport :=
    fun i _ => if i =? 0 then ReadErr 1000 else ReadOk 5 [] in
  exists out sm,
    ping conn (initial 1000 4 32) = Ok (out, sm)
    /\ sent sm = 4 /\ received sm = 3 /\ lost sm = 1
    /\ fmt_2f (lossRatio sm) = "0.25"%string.
Proof.
  intros conn. eexists _, _. split; [vm_compute; reflexivity|].
  repeat split.
Qed.

(** C4, the code at a count of 0: no request is made, and the division
    of [totalTs] by [sendCount] panics before the summary is printed. *)
Theorem summary_of_empty_run_panics (conn : transport) (w l : Z) :
  pingRequests conn (initial w 0 l) = Ok (start (initial w 0 l))
  /\ sendCount (initial w 0 l) = 0
  /\ ping conn (initial w 0 l) = Panic IntegerDivideByZero.
Proof. repeat split. Qed.

(** * Further properties *)

(** ** The checksum as a function of the word sum *)

Lemma checkSum_wordSum (data : list byte) :
  checkSum data
  = Ok ((65535 - endAround (wordSum data mod 2 ^ 32))%N, None).
Proof.
  rewrite checkSum_eq, accumulate_sum. fold (wordSum data).
  assert (H : (wordSum data mod 2 ^ 32 < 2 ^ 32)%N) by now apply N.mod_lt.
  rewrite uint16_not32 by now apply foldLoop_lt.
  now rewrite foldLoop_closed.
Qed.

Lemma endAround_le (x : N) : (endAround x <= 65535)%N.
Proof. unfold endAround. destruct (N.eqb_spec x 0%N); euclid. Qed.

Lemma words_app_even (x y : list byte) :
  Nat.even (length x) = true ->
  RFC1071.words (x ++ y) = RFC1071.words x ++ RFC1071.words y.
Proof.
  induction x as [|a|a b x IH] using list_pair_ind; intros H.
  - reflexivity.
  - discriminate.
  - cbn [app RFC1071.words]. f_equal. now apply IH.
Qed.

Lemma wordSum_app_even (x y : list byte) :
  Nat.even (length x) = true ->
  wordSum (x ++ y) = (wordSum x + wordSum y)%N.
Proof.
  intros H. unfold wordSum. rewrite words_app_even by trivial.
  induction (RFC1071.words x) as [|w ws IH]; cbn [app fold_right]; lia.
Qed.

Lemma wordSum_zeros (k : nat) : wordSum (replicate k x00) = 0%N.
Proof.
  assert (H : wordSum (replicate k x00) = 0%N
              /\ wordSum (replicate (S k) x00) = 0%N).
  { induction k as [|k [IH1 IH2]]; split; trivial; reflexivity. }
  apply H.
Qed.

(** Where a byte stands in the sum: with weight 256 when it opens a word
    that has a second byte, with weight 1 otherwise. *)
Lemma wordSum_byte (pre post : list byte) :
  exists K w, (w = 1 \/ w = 256)%N
              /\ forall b, wordSum (pre ++ b :: post)
                           = (K + w * Byte.to_N b)%N.
Proof.
  induction pre as [|a|a a' pre IH] using list_pair_ind.
  - destruct post as [|c post].
    + exists 0%N, 1%N. split; [auto|]. intros b. unfold wordSum. cbn. lia.
    + exists (Byte.to_N c + wordSum post)%N, 256%N. split; [auto|].
      intros b. unfold wordSum. cbn [app RFC1071.words fold_right].
      rewrite lor_shiftl_8 by apply to_N_lt. lia.
  - exists (Byte.to_N a * 256 + wordSum post)%N, 1%N. split; [auto|].
    intros b. unfold wordSum. cbn [app RFC1071.words fold_right].
    rewrite lor_shiftl_8 by apply to_N_lt. lia.
  - destruct IH as (K & w & Hw & IH).
    exists (Byte.to_N a * 256 + Byte.to_N a' + K)%N, w. split; [exact Hw|].
    intros b. specialize (IH b). unfold wordSum in *.
    cbn [app RFC1071.words fold_right].
    rewrite lor_shiftl_8 by apply to_N_lt. lia.
Qed.

Lemma endAround_moved (s d : N) :
  (s < 4294967296)%N -> (1 <= d <= 65280)%N ->
  endAround s <> endAround ((s + d) mod 4294967296).
Proof.
  intros Hs Hd. unfold endAround.
  destruct (N.eqb_spec s 0%N);
    destruct (N.eqb_spec ((s + d) mod 4294967296) 0%N); euclid.
Qed.

Lemma endAround_weighed (K w x y : N) :
  (w = 1 \/ w = 256)%N -> (x < 256)%N -> (y < 256)%N -> x <> y ->
  endAround ((K + w * x) mod 2 ^ 32) <> endAround ((K + w * y) mod 2 ^ 32).
Proof.
  change (2 ^ 32)%N with 4294967296%N.
  assert (H : forall x y, (x < y)%N -> (y < 256)%N ->
    endAround ((K + w * x) mod 4294967296)
    <> endAround ((K + w * y) mod 4294967296) \/ ~ (w = 1 \/ w = 256)%N).
  { clear x y. intros x y Hxy Hy.
    destruct (N.eq_dec w 1%N) as [->|H1];
      [|destruct (N.eq_dec w 256%N) as [->|H2]];
      [left | left | right; lia].
    - replace ((K + 1 * y) mod 4294967296)%N
        with (((K + 1 * x) mod 4294967296 + (y - x)) mod 4294967296)%N.
      + apply endAround_moved; [now apply N.mod_lt | lia].
      + rewrite N.Div0.add_mod_idemp_l. f_equal. lia.
    - replace ((K + 256 * y) mod 4294967296)%N
        with (((K + 256 * x) mod 4294967296 + 256 * (y - x)) mod 4294967296)%N.
      + apply endAround_moved; [now apply N.mod_lt | lia].
      + rewrite N.Div0.add_mod_idemp_l. f_equal. lia. }
  intros Hw Hx Hy Hne.
  destruct (N.lt_trichotomy x y) as [Hlt|[Heq|Hgt]]; [|contradiction|].
  - destruct (H x y Hlt Hy) as [Hd|Hn]; [exact Hd | contradiction].
  - destruct (H y x Hgt Hx) as [Hd|Hn]; [congruence | contradiction].
Qed.

Lemma wordSum_bound (data : list byte) :
  (2 * wordSum data <= 65535 * N.of_nat (length data))%N.
Proof.
  induction data as [|a|a b data IH] using list_pair_ind.
  - cbn. lia.
  - pose proof (to_N_lt a). unfold wordSum. cbn. lia.
  - pose proof (to_N_lt a). pose proof (to_N_lt b).
    unfold wordSum in *. cbn [RFC1071.words fold_right length].
    rewrite lor_shiftl_8 by trivial. lia.
Qed.

Lemma wordSum_ones (k : nat) :
  wordSum (replicate (2 * k) xff) = (65535 * N.of_nat k)%N.
Proof.
  induction k as [|k IH]; [reflexivity|].
  replace (2 * S k)%nat with (S (S (2 * k))) by lia.
  cbn [replicate]. unfold wordSum in *. cbn [RFC1071.words fold_right].
  rewrite IH. change (N.lor (N.shiftl (Byte.to_N xff) 8) (Byte.to_N xff))
    with 65535%N. lia.
Qed.

(** X1.  Zero bytes after data of even length do not change the
    checksum; a buffer of zero bytes alone has the checksum 0xFFFF. *)
Theorem checkSum_zero_padding :
  (forall k : nat, checkSum (replicate k x00) = Ok (0xFFFF%N, None))
  /\ (forall (data : list byte) (k : nat),
        Nat.even (length data) = true ->
        checkSum (data ++ replicate k x00) = checkSum data).
Proof.
  split.
  - intros k. rewrite checkSum_wordSum, wordSum_zeros. reflexivity.
  - intros data k H.
    rewrite !checkSum_wordSum, wordSum_app_even, wordSum_zeros by trivial.
    now rewrite N.add_0_r.
Qed.

Lemma checkSum_zero_padding_witness :
  checkSum ([x08; x00; x00; x01] ++ replicate 5 x00)
  = checkSum [x08; x00; x00; x01].
Proof.
  apply (proj2 checkSum_zero_padding [x08; x00; x00; x01] 5%nat).
  reflexivity.
Defined.

(** X2.  Two blocks of even length can change places without changing
    the checksum. *)
Theorem checkSum_blocks_commute (x y : list byte) :
  Nat.even (length x) = true -> Nat.even (length y) = true ->
  checkSum (x ++ y) = checkSum (y ++ x).
Proof.
  intros Hx Hy. rewrite !checkSum_wordSum, !wordSum_app_even by trivial.
  now rewrite N.add_comm.
Qed.

Lemma checkSum_blocks_commute_witness :
  checkSum ([x08; x00] ++ [x12; x34; x56; x78])
  = checkSum ([x12; x34; x56; x78] ++ [x08; x00]).
Proof.
  apply (checkSum_blocks_commute [x08; x00] [x12; x34; x56; x78]);
    reflexivity.
Defined.

(** X3.  Changing one byte of a buffer, wherever it stands and however
    long the buffer is, changes the checksum. *)
Theorem checkSum_detects_one_byte (pre post : list byte) (b b' : byte) :
  b <> b' -> checkSum (pre ++ b :: post) <> checkSum (pre ++ b' :: post).
Proof.
  intros Hne. rewrite !checkSum_wordSum.
  destruct (wordSum_byte pre post) as (K & w & Hw & Hsum).
  rewrite !Hsum. intros E. apply Ok_inj in E.
  assert (Hd : endAround ((K + w * Byte.to_N b) mod 2 ^ 32)
               <> endAround ((K + w * Byte.to_N b') mod 2 ^ 32)).
  { apply endAround_weighed; trivial; try apply to_N_lt.
    intros Heq. apply Hne.
    apply (f_equal Byte.of_N) in Heq. rewrite !Byte.of_to_N in Heq.
    now injection Heq. }
  pose proof (endAround_le ((K + w * Byte.to_N b) mod 2 ^ 32)).
  pose proof (endAround_le ((K + w * Byte.to_N b') mod 2 ^ 32)).
  injection E as E. lia.
Qed.

Lemma checkSum_detects_one_byte_witness :
  checkSum ([x08; x00; x00] ++ x01 :: [x61])
  <> checkSum ([x08; x00; x00] ++ x02 :: [x61]).
Proof.
  apply (checkSum_detects_one_byte [x08; x00; x00] [x61] x01 x02).
  discriminate.
Defined.

(** X4.  On a buffer of at most 131074 bytes the thirty-two-bit sum does
    not wrap, and the checksum is the complement of the unbounded word
    sum reduced with end-around carry.  The bound is sharp for whole
    words: on 131076 bytes of 0xFF the sum wraps and the checksum is 1,
    where the unbounded sum gives 0. *)
Theorem checkSum_exact_up_to_131074 :
  (forall data : list byte,
     Z.of_nat (length data) <= 131074 ->
     checkSum data = Ok ((65535 - endAround (wordSum data))%N, None))
  /\ checkSum (replicate (N.to_nat 131076) xff) = Ok (1%N, None)
  /\ (65535 - endAround (wordSum (replicate (N.to_nat 131076) xff)) = 0)%N.
Proof.
  split; [|split].
  - intros data Hlen. rewrite checkSum_wordSum.
    pose proof (wordSum_bound data).
    rewrite N.mod_small; [reflexivity|].
    change (2 ^ 32)%N with 4294967296%N. lia.
  - rewrite checkSum_wordSum.
    replace (N.to_nat 131076) with (2 * N.to_nat 65538)%nat by lia.
    rewrite wordSum_ones, N2Nat.id. reflexivity.
  - replace (N.to_nat 131076) with (2 * N.to_nat 65538)%nat by lia.
    rewrite wordSum_ones, N2Nat.id. reflexivity.
Qed.

Lemma checkSum_exact_up_to_131074_witness :
  checkSum [xff; xff; x01]
  = Ok ((65535 - endAround (wordSum [xff; xff; x01]))%N, None).
Proof.
  apply (proj1 checkSum_exact_up_to_131074 [xff; xff; x01]). cbn. lia.
Defined.

(** ** The datagram in closed form *)

Lemma uint16_of_int_lt (i : Z) : (uint16_of_int i < 2 ^ 16)%N.
Proof.
  unfold uint16_of_int. change (2 ^ 16)%N with 65536%N.
  change (2 ^ 16) with 65536. euclid.
Qed.

Lemma wordSum_header (c id : N) (k : nat) :
  (c < 2 ^ 16)%N -> (id < 2 ^ 16)%N ->
  wordSum ([x08; x00] ++ bigEndian16 c ++ bigEndian16 id ++ bigEndian16 id
             ++ replicate k x00)
  = (2048 + c + 2 * id)%N.
Proof.
  intros Hc Hid. unfold bigEndian16. cbn [app].
  change (x08 :: x00 :: ?a :: ?b :: ?c :: ?d :: ?e :: ?f :: ?r)
    with ([x08; x00; a; b; c; d; e; f] ++ r).
  rewrite wordSum_app_even by reflexivity. rewrite wordSum_zeros.
  unfold wordSum. cbn [RFC1071.words fold_right].
  rewrite !stamped_word by trivial.
  change (N.lor (N.shiftl (Byte.to_N x08) 8) (Byte.to_N x00)) with 2048%N.
  lia.
Qed.

Lemma buildPacket_bytes (i size : Z) :
  0 <= size ->
  buildPacket i size
  = Ok (inl ([x08; x00]
               ++ bigEndian16
                    (65534 - (2047 + 2 * uint16_of_int i) mod 65535)%N
               ++ bigEndian16 (uint16_of_int i)
               ++ bigEndian16 (uint16_of_int i)
               ++ replicate (Z.to_nat size) x00)).
Proof.
  intros Hsize. destruct (buildPacket_eq i size Hsize) as (cs & Hcs & _ & ->).
  pose proof (uint16_of_int_lt i) as Hid.
  change ([x08; x00; x00; x00]) with ([x08; x00] ++ bigEndian16 0) in Hcs.
  rewrite <- app_assoc, checkSum_wordSum, wordSum_header in Hcs
    by (trivial; reflexivity).
  apply Ok_inj in Hcs. injection Hcs as <-.
  assert (E : (65535 - endAround ((2048 + 0 + 2 * uint16_of_int i) mod 2 ^ 32)
               = 65534 - (2047 + 2 * uint16_of_int i) mod 65535)%N).
  { unfold endAround. change (2 ^ 32)%N with 4294967296%N.
    change (2 ^ 16)%N with 65536%N in Hid.
    destruct (N.eqb_spec ((2048 + 0 + 2 * uint16_of_int i) mod 4294967296) 0%N);
      euclid. }
  rewrite E. reflexivity.
Qed.

(** X5.  For every loop index and every payload size that is not
    negative, the datagram is the bytes 08 00, the checksum, the low
    sixteen bits of the index twice, and the payload of zero bytes; the
    checksum is [65534 - (2047 + 2 id) mod 65535], whatever the payload
    size. *)
Theorem datagram_in_closed_form (i size : Z) :
  0 <= size ->
  let id := Z.to_N (i mod 65536) in
  let cs := (65534 - (2047 + 2 * id) mod 65535)%N in
  buildPacket i size
  = Ok (inl ([x08; x00;
              byte_of_N (cs / 256); byte_of_N cs;
              byte_of_N (id / 256); byte_of_N id;
              byte_of_N (id / 256); byte_of_N id]
               ++ replicate (Z.to_nat size) x00)).
Proof.
  intros Hsize id cs. rewrite buildPacket_bytes by trivial.
  unfold bigEndian16. rewrite !N.shiftr_div_pow2. reflexivity.
Qed.

Lemma datagram_in_closed_form_witness :
  let id := Z.to_N (258 mod 65536) in
  let cs := (65534 - (2047 + 2 * id) mod 65535)%N in
  buildPacket 258 3
  = Ok (inl ([x08; x00;
              byte_of_N (cs / 256); byte_of_N cs;
              byte_of_N (id / 256); byte_of_N id;
              byte_of_N (id / 256); byte_of_N id]
               ++ replicate (Z.to_nat 3) x00)).
Proof. apply (datagram_in_closed_form 258 3). lia. Defined.

(** X6.  The identifier and the sequence number are the index cut to
    sixteen bits: indices that differ by a multiple of 65536 give the
    same datagram (or the same panic). *)
Theorem datagram_repeats_every_65536 (i k size : Z) :
  buildPacket (i + 65536 * k) size = buildPacket i size.
Proof.
  unfold buildPacket.
  replace (uint16_of_int (i + 65536 * k)) with (uint16_of_int i); [reflexivity|].
  unfold uint16_of_int. f_equal. change (2 ^ 16) with 65536.
  rewrite Z.mul_comm. symmetry. apply Z.mod_add. discriminate.
Qed.

(** X7.  The datagram an iteration sends carries a checksum that
    verifies: [checkSum] over the whole datagram is 0. *)
Theorem datagram_verifies (i size : Z) (data : list byte) :
  buildPacket i size = Ok (inl data) -> checkSum data = Ok (0%N, None).
Proof.
  intros Hb. destruct (Z.lt_ge_cases size 0) as [Hs|Hs].
  { rewrite buildPacket_negative in Hb by trivial. discriminate. }
  rewrite buildPacket_bytes in Hb by trivial.
  apply Ok_inj in Hb. injection Hb as <-.
  pose proof (uint16_of_int_lt i) as Hid.
  change (2 ^ 16)%N with 65536%N in Hid.
  change (checkSum
            ([x08; x00]
               ++ bigEndian16
                    (65534 - (2047 + 2 * uint16_of_int i) mod 65535)%N
               ++ bigEndian16 (uint16_of_int i)
               ++ bigEndian16 (uint16_of_int i)
               ++ replicate (Z.to_nat size) x00) = Ok (0%N, None)).
  rewrite checkSum_wordSum, wordSum_header
    by (trivial; change (2 ^ 16)%N with 65536%N; euclid).
  do 2 f_equal. unfold endAround. change (2 ^ 32)%N with 4294967296%N.
  match goal with |- context [N.eqb ?a 0%N] => destruct (N.eqb_spec a 0%N) end;
    euclid.
Qed.

Lemma datagram_verifies_witness :
  checkSum [x08; x00; xf7; xfd; x00; x01; x00; x01; x00; x00; x00]
  = Ok (0%N, None).
Proof.
  apply (datagram_verifies 1 3). vm_compute. reflexivity.
Defined.

(** ** A run as a function of what the transport does *)

Lemma request_built (i l : Z) (data : list byte) :
  buildPacket i l = Ok (inl data) -> request i l = data.
Proof. intros H. unfold request. now rewrite H. Qed.

(** An iteration in full: the variables, and the one line it prints. *)
Lemma attempt_step (conn : transport) (i : Z) (s s' : session) :
  attempt conn i s = Ok s' ->
  exists ln,
    vars s' = settle (incSendCount (vars s))
                (conn i (request i (size (vars s))))
    /\ printed s' = printed s ++ [ln]
    /\ isReply ln = isReadOk (conn i (request i (size (vars s))))
    /\ (isReadOk (conn i (request i (size (vars s)))) = false ->
        ln = failureLine (conn i (request i (size (vars s))))).
Proof.
  intros E. destruct (attempt_Ok _ _ _ _ E) as (data & Hb & Hx).
  rewrite (request_built _ _ _ Hb).
  destruct (conn i data) as [t|t|t dgram].
  - apply Ok_inj in Hx. subst s'. exists RequestFailed. repeat split.
  - apply Ok_inj in Hx. subst s'. exists RequestTimedOut. repeat split.
  - destruct (exchange_ReadOk (incSendCount (vars s)) s t dgram)
      as (a & b & c & d & ttl & _ & _ & _ & _ & _ & Hx').
    rewrite Hx' in Hx. apply Ok_inj in Hx. subst s'.
    eexists. repeat split. discriminate.
Qed.

Lemma settle_frame (g : globals) (r : response) :
  timeout (settle g r) = timeout g
  /\ count (settle g r) = count g
  /\ size (settle g r) = size g
  /\ sendCount (settle g r) = sendCount g.
Proof. destruct r; repeat split. Qed.

(** How [ping] ends, by the count and the payload size. *)
Lemma ping_cases (conn : transport) (w n l : Z) :
  n <= MaxInt64 ->
  (0 < n -> 0 <= l ->
   exists out sm, ping conn (initial w n l) = Ok (out, sm) /\ sent sm = n)
  /\ (n <= 0 -> ping conn (initial w n l) = Panic IntegerDivideByZero)
  /\ (0 < n -> l < 0 ->
      ping conn (initial w n l) = Panic MakeSliceLenOutOfRange).
Proof.
  intros Hn. split; [|split].
  - intros Hpos Hl.
    destruct (pingLoop_total conn (Z.to_nat n) 0 (start (initial w n l)) Hl)
      as (s & Hrun).
    assert (Hc : counted (0 + Z.of_nat (Z.to_nat n)) s).
    { apply (pingLoop_invariant conn counted n)
        with (s := start (initial w n l)); [ | lia | lia | | exact Hrun].
      - intros i s0 s1 Hi. apply counted_step. lia.
      - now apply counted_start. }
    destruct Hc as (Hsent & _).
    unfold ping, pingRequests. cbn [count initial]. rewrite Hrun. cbn [bind].
    unfold summarize, quo64. unfold MaxInt64 in Hn.
    rewrite (int64_small (sendCount (vars s)))
      by (unfold MinInt64, MaxInt64; lia).
    destruct (Z.eqb_spec (sendCount (vars s)) 0); [lia|].
    cbn [bind]. eexists _, _. split; [reflexivity|]. cbn [sent]. lia.
  - intros Hle. unfold ping, pingRequests. cbn [count initial].
    replace (Z.to_nat n) with 0%nat by lia. reflexivity.
  - intros Hpos Hl. unfold ping, pingRequests. cbn [count initial].
    destruct (Z.to_nat n) as [|m] eqn:E; [lia|].
    cbn [pingLoop]. rewrite attempt_negative by (cbn; lia). reflexivity.
Qed.

(** X8.  With a count that is an [int], the summary is printed exactly
    when the count is positive and the payload size is not negative: a
    count of zero or less ends in an integer division by zero, a
    negative payload size with a positive count in a panic of [make] in
    the first iteration. *)
Theorem ping_ends (conn : transport) (w n l : Z) :
  n <= MaxInt64 ->
  (0 < n -> 0 <= l ->
   exists out sm, ping conn (initial w n l) = Ok (out, sm) /\ sent sm = n)
  /\ (n <= 0 -> ping conn (initial w n l) = Panic IntegerDivideByZero)
  /\ (0 < n -> l < 0 ->
      ping conn (initial w n l) = Panic MakeSliceLenOutOfRange).
Proof. apply ping_cases. Qed.

Lemma ping_ends_witness :
  let conn : transport := fun _ _ => ReadErr 1000 in
  (exists out sm, ping conn (initial 1000 4 32) = Ok (out, sm) /\ sent sm = 4)
  /\ ping conn (initial 1000 (-1) 32) = Panic IntegerDivideByZero
  /\ ping conn (initial 1000 4 (-1)) = Panic MakeSliceLenOutOfRange.
Proof.
  intros conn. assert (H : forall n, n <= 4 -> n <= MaxInt64)
    by (unfold MaxInt64; lia).
  split; [|split].
  - apply (proj1 (ping_ends conn 1000 4 32 (H 4 ltac:(lia)))); lia.
  - apply (proj1 (proj2 (ping_ends conn 1000 (-1) 32 (H (-1) ltac:(lia))))).
    lia.
  - apply (proj2 (proj2 (ping_ends conn 1000 4 (-1) (H 4 ltac:(lia))))); lia.
Defined.

Lemma answers_next (conn : transport) (l i : Z) :
  0 <= i ->
  answers conn l (Z.to_nat (i + 1))
  = answers conn l (Z.to_nat i) ++ [conn i (request i l)].
Proof.
  intros Hi. unfold answers.
  replace (Z.to_nat (i + 1)) with (S (Z.to_nat i)) by lia.
  rewrite seq_S, map_app. cbn [map Nat.add]. now rewrite Z2Nat.id.
Qed.

Lemma tally_app {A : Type} (p : A -> bool) (l1 l2 : list A) :
  tally p (l1 ++ l2) = tally p l1 + tally p l2.
Proof. induction l1 as [|a l1 IH]; cbn [app tally]; lia. Qed.

Lemma tally_bounds {A : Type} (p : A -> bool) (l : list A) :
  0 <= tally p l <= Z.of_nat (length l).
Proof.
  induction l as [|a l IH]; cbn [tally length]; [lia|].
  destruct (p a); lia.
Qed.

Lemma answers_length (conn : transport) (l : Z) (n : nat) :
  length (answers conn l n) = n.
Proof. unfold answers. now rewrite length_map, length_seq. Qed.

Lemma timings_app (rs1 rs2 : list response) :
  timings (rs1 ++ rs2) = timings rs1 ++ timings rs2.
Proof.
  induction rs1 as [|r rs1 IH]; cbn [app timings]; [reflexivity|].
  destruct (transmitted r); cbn [app]; now rewrite IH.
Qed.

Lemma min_snoc (m t : Z) (ts : list Z) :
  fold_right Z.min m (ts ++ [t]) = Z.min (fold_right Z.min m ts) t.
Proof. induction ts as [|a ts IH]; cbn [app fold_right]; lia. Qed.

Lemma max_snoc (m t : Z) (ts : list Z) :
  fold_right Z.max m (ts ++ [t]) = Z.max (fold_right Z.max m ts) t.
Proof. induction ts as [|a ts IH]; cbn [app fold_right]; lia. Qed.

Lemma total_snoc (t : Z) (ts : list Z) : total (ts ++ [t]) = total ts + t.
Proof.
  unfold total. induction ts as [|a ts IH]; cbn [app fold_right]; lia.
Qed.

Lemma recorded_step (conn : transport) (l i : Z) (s s' : session) :
  0 <= i < MaxInt64 -> recorded conn l i s -> attempt conn i s = Ok s' ->
  recorded conn l (i + 1) s'.
Proof.
  intros Hi (Hsize & Hsent & Hsucc & Hfail & Hlen & Hrep & Hmin & Hmax) E.
  destruct (attempt_step _ _ _ _ E) as (ln & Hvars & Hout & Hln & _).
  rewrite Hsize in *.
  pose proof (tally_bounds isReadOk (answers conn l (Z.to_nat i))) as Hb.
  rewrite answers_length in Hb.
  unfold recorded. rewrite answers_next by lia.
  rewrite !tally_app, timings_app, Hvars, Hout, length_app, tally_app.
  cbn [tally length]. rewrite Hln.
  unfold MaxInt64 in Hi.
  assert (Hw : forall z, 0 <= z <= i -> int64 (z + 1) = z + 1)
    by (intros; apply int64_small; unfold MinInt64, MaxInt64; lia).
  destruct (conn i (request i l)) as [t|t|t dgram];
    cbn [settle isReadOk timings transmitted elapsed app
         size sendCount successCount failCount minTs maxTs
         incSendCount incSuccessCount incFailCount recordTs];
    rewrite ?min_snoc, ?max_snoc, ?app_nil_r, Hsent, ?Hsucc, ?Hfail, <- ?Hmin,
      <- ?Hmax, ?Hw by lia;
    repeat split; try lia.
  all: first [destruct (Z.gtb_spec (minTs (vars s)) t); lia
             | destruct (Z.ltb_spec (maxTs (vars s)) t); lia].
Qed.

Lemma recorded_start (conn : transport) (w n l : Z) :
  recorded conn l 0 (start (initial w n l)).
Proof. unfold recorded. cbn. repeat split. Qed.

(** The loop of a whole run keeps [recorded]. *)
Lemma run_recorded (conn : transport) (w n l : Z) (s : session) :
  n <= MaxInt64 ->
  pingRequests conn (initial w n l) = Ok s ->
  recorded conn l (Z.max n 0) s.
Proof.
  intros Hn Hrun. unfold pingRequests in Hrun. cbn [count initial] in Hrun.
  replace (Z.max n 0) with (0 + Z.of_nat (Z.to_nat n)) by lia.
  apply (pingLoop_invariant conn (recorded conn l) (Z.max n 0))
    with (s := start (initial w n l)); [ | lia | lia | | exact Hrun].
  - intros i s0 s1 Hi. apply recorded_step. lia.
  - apply recorded_start.
Qed.

Lemma summed_step (conn : transport) (T l n i : Z) (s s' : session) :
  0 <= T -> 0 <= i < n -> n * T <= MaxInt64 ->
  (transmitted (conn i (request i l)) = true ->
   0 <= elapsed (conn i (request i l)) <= T) ->
  summed conn T l i s -> attempt conn i s = Ok s' ->
  summed conn T l (i + 1) s'.
Proof.
  intros HT0 Hi HnT Hconn (Hsize & Htot & Hb) E.
  destruct (attempt_step _ _ _ _ E) as (ln & Hvars & _).
  rewrite Hsize in *.
  unfold summed. rewrite answers_next, timings_app, Hvars by lia.
  unfold MaxInt64 in HnT.
  destruct (conn i (request i l)) as [t|t|t dgram];
    cbn [settle timings transmitted elapsed app size totalTs
         incSendCount incSuccessCount incFailCount recordTs] in *;
    rewrite ?app_nil_r, ?total_snoc, <- ?Htot.
  - repeat split; nia.
  - specialize (Hconn eq_refl).
    assert (HT : (i + 1) * T <= n * T) by nia.
    rewrite int64_small by (unfold MinInt64, MaxInt64; nia).
    repeat split; nia.
  - specialize (Hconn eq_refl).
    assert (HT : (i + 1) * T <= n * T) by nia.
    rewrite int64_small by (unfold MinInt64, MaxInt64; nia).
    repeat split; nia.
Qed.

(** The loop of a whole run keeps [summed]. *)
Lemma run_summed (conn : transport) (w n l T : Z) (s : session) :
  0 <= T -> n * T <= MaxInt64 ->
  (forall i, 0 <= i < n ->
             transmitted (conn i (request i l)) = true ->
             0 <= elapsed (conn i (request i l)) <= T) ->
  pingRequests conn (initial w n l) = Ok s ->
  summed conn T l (Z.max n 0) s.
Proof.
  intros HT HnT Hconn Hrun.
  unfold pingRequests in Hrun. cbn [count initial] in Hrun.
  replace (Z.max n 0) with (0 + Z.of_nat (Z.to_nat n)) by lia.
  apply (pingLoop_invariant conn (summed conn T l) (Z.max n 0))
    with (s := start (initial w n l)); [ | lia | lia | | exact Hrun].
  - intros i s0 s1 Hi. apply (summed_step conn T l n); [lia | lia | lia |].
    apply Hconn. lia.
  - unfold summed. cbn. repeat split; lia.
Qed.

(** X9.  When the loop of a run ends, one line has been printed for each
    request; the reply lines are as many as [successCount] and the
    failure lines as many as [failCount]. *)
Theorem one_line_per_request (conn : transport) (w n l : Z) (s : session) :
  n <= MaxInt64 ->
  pingRequests conn (initial w n l) = Ok s ->
  Z.of_nat (length (printed s)) = Z.max n 0
  /\ tally isReply (printed s) = successCount (vars s)
  /\ tally (fun ln => negb (isReply ln)) (printed s) = failCount (vars s).
Proof.
  intros Hn Hrun.
  destruct (run_recorded conn w n l s Hn Hrun)
    as (_ & _ & Hsucc & Hfail & Hlen & Hrep & _).
  assert (Hneg : forall ls : list line,
            tally (fun ln => negb (isReply ln)) ls
            = Z.of_nat (length ls) - tally isReply ls).
  { induction ls as [|ln ls IH]; cbn [tally length]; [lia|].
    destruct (isReply ln); cbn [negb]; lia. }
  rewrite Hneg, Hrep, Hlen, Hsucc, Hfail. lia.
Qed.

Lemma one_line_per_request_witness :
  let conn : transport :=
    fun i _ => if i =? 1 then WriteErr 0 else ReadOk 5 [] in
  exists s,
    pingRequests conn (initial 1000 3 32) = Ok s
    /\ Z.of_nat (length (printed s)) = Z.max 3 0
    /\ tally isReply (printed s) = successCount (vars s)
    /\ tally (fun ln => negb (isReply ln)) (printed s) = failCount (vars s).
Proof.
  intros conn.
  destruct (pingLoop_total conn 3 0 (start (initial 1000 3 32))) as (s & Hs);
    [cbn; lia|].
  exists s. split; [exact Hs|].
  apply (one_line_per_request conn 1000 3 32 s); [unfold MaxInt64; lia|].
  exact Hs.
Defined.

(** X10.  When the loop of a run ends, [successCount] is the number of
    requests to which the transport returned a datagram and [failCount]
    the number of all others, whatever the datagrams hold. *)
Theorem counters_follow_the_transport
  (conn : transport) (w n l : Z) (s : session) :
  n <= MaxInt64 ->
  pingRequests conn (initial w n l) = Ok s ->
  successCount (vars s) = tally isReadOk (answers conn l (Z.to_nat n))
  /\ failCount (vars s)
     = tally (fun r => negb (isReadOk r)) (answers conn l (Z.to_nat n)).
Proof.
  intros Hn Hrun.
  destruct (run_recorded conn w n l s Hn Hrun) as (_ & _ & Hsucc & Hfail & _).
  replace (Z.to_nat (Z.max n 0)) with (Z.to_nat n) in * by lia.
  split; [exact Hsucc|]. rewrite Hfail.
  assert (Hneg : forall rs : list response,
            tally (fun r => negb (isReadOk r)) rs
            = Z.of_nat (length rs) - tally isReadOk rs).
  { induction rs as [|r rs IH]; cbn [tally length]; [lia|].
    destruct (isReadOk r); cbn [negb]; lia. }
  rewrite Hneg, answers_length. lia.
Qed.

Lemma counters_follow_the_transport_witness :
  let conn : transport :=
    fun i _ => if i =? 1 then WriteErr 0 else ReadOk 5 [] in
  exists s,
    pingRequests conn (initial 1000 3 32) = Ok s
    /\ successCount (vars s) = tally isReadOk (answers conn 32 (Z.to_nat 3))
    /\ failCount (vars s)
       = tally (fun r => negb (isReadOk r)) (answers conn 32 (Z.to_nat 3)).
Proof.
  intros conn.
  destruct (pingLoop_total conn 3 0 (start (initial 1000 3 32))) as (s & Hs);
    [cbn; lia|].
  exists s. split; [exact Hs|].
  apply (counters_follow_the_transport conn 1000 3 32 s);
    [unfold MaxInt64; lia|].
  exact Hs.
Defined.

(** X11.  When the loop of a run ends, [minTs] is the least of
    2147483647 and the elapsed times of the exchanges whose datagram was
    written, and [maxTs] the greatest of 0 and those times: so [minTs] is
    never above 2147483647 and [maxTs] never below 0, and an exchange
    longer than 2147483647 ms does not show in [minTs]. *)
Theorem min_and_max_follow_the_transport
  (conn : transport) (w n l : Z) (s : session) :
  n <= MaxInt64 ->
  pingRequests conn (initial w n l) = Ok s ->
  minTs (vars s)
  = fold_right Z.min MaxInt32 (timings (answers conn l (Z.to_nat n)))
  /\ maxTs (vars s)
     = fold_right Z.max 0 (timings (answers conn l (Z.to_nat n)))
  /\ minTs (vars s) <= MaxInt32
  /\ 0 <= maxTs (vars s).
Proof.
  intros Hn Hrun.
  destruct (run_recorded conn w n l s Hn Hrun)
    as (_ & _ & _ & _ & _ & _ & Hmin & Hmax).
  replace (Z.to_nat (Z.max n 0)) with (Z.to_nat n) in * by lia.
  split; [exact Hmin|]. split; [exact Hmax|]. rewrite Hmin, Hmax.
  generalize (timings (answers conn l (Z.to_nat n))). intros ts.
  induction ts as [|t ts IH]; cbn [fold_right]; lia.
Qed.

Lemma min_and_max_follow_the_transport_witness :
  let conn : transport :=
    fun i _ => if i =? 1 then WriteErr 0 else ReadOk 5 [] in
  exists s,
    pingRequests conn (initial 1000 3 32) = Ok s
    /\ minTs (vars s)
       = fold_right Z.min MaxInt32 (timings (answers conn 32 (Z.to_nat 3)))
    /\ maxTs (vars s)
       = fold_right Z.max 0 (timings (answers conn 32 (Z.to_nat 3)))
    /\ minTs (vars s) <= MaxInt32
    /\ 0 <= maxTs (vars s).
Proof.
  intros conn.
  destruct (pingLoop_total conn 3 0 (start (initial 1000 3 32))) as (s & Hs);
    [cbn; lia|].
  exists s. split; [exact Hs|].
  apply (min_and_max_follow_the_transport conn 1000 3 32 s);
    [unfold MaxInt64; lia|].
  exact Hs.
Defined.

(** X12.  When the loop of a run ends and no exchange with a written
    datagram took less than 0 or more than [T] milliseconds, [n * T]
    being within [int64], [totalTs] is the sum of the elapsed times of
    the exchanges whose datagram was written; a failed write adds
    nothing. *)
Theorem total_follows_the_transport
  (conn : transport) (w n l T : Z) (s : session) :
  0 <= T -> n * T <= MaxInt64 ->
  (forall i, 0 <= i < n ->
             transmitted (conn i (request i l)) = true ->
             0 <= elapsed (conn i (request i l)) <= T) ->
  pingRequests conn (initial w n l) = Ok s ->
  totalTs (vars s) = total (timings (answers conn l (Z.to_nat n))).
Proof.
  intros HT HnT Hconn Hrun.
  destruct (run_summed conn w n l T s HT HnT Hconn Hrun) as (_ & Htot & _).
  now replace (Z.to_nat (Z.max n 0)) with (Z.to_nat n) in * by lia.
Qed.

Lemma total_follows_the_transport_witness :
  let conn : transport :=
    fun i _ => if i =? 1 then WriteErr 7 else ReadOk 5 [] in
  exists s,
    pingRequests conn (initial 1000 3 32) = Ok s
    /\ totalTs (vars s) = total (timings (answers conn 32 (Z.to_nat 3))).
Proof.
  intros conn.
  destruct (pingLoop_total conn 3 0 (start (initial 1000 3 32))) as (s & Hs);
    [cbn; lia|].
  exists s. split; [exact Hs|].
  apply (total_follows_the_transport conn 1000 3 32 5 s);
    [lia | unfold MaxInt64; lia | | exact Hs].
  intros i _. unfold conn. destruct (i =? 1); cbn; [discriminate | lia].
Defined.

(** X13.  A run of [n > 0] requests of which none is written prints [n]
    failure lines and a summary with all [n] lost, with 2147483647 ms as
    the shortest time, 0 ms as the longest and 0 ms as the average. *)
Theorem run_without_a_written_request (conn : transport) (w n l : Z) :
  0 < n <= MaxInt64 -> 0 <= l ->
  (forall i, 0 <= i < n -> transmitted (conn i (request i l)) = false) ->
  exists sm,
    ping conn (initial w n l)
    = Ok (replicate (Z.to_nat n) RequestFailed, sm)
    /\ sent sm = n /\ received sm = 0 /\ lost sm = n
    /\ shortest sm = MaxInt32 /\ longest sm = 0 /\ average sm = 0.
Proof.
  intros Hn Hl Hconn.
  destruct (pingLoop_total conn (Z.to_nat n) 0 (start (initial w n l)) Hl)
    as (s & Hrun).
  assert (Hrs : forall k, (k <= Z.to_nat n)%nat ->
            timings (answers conn l k) = []
            /\ tally isReadOk (answers conn l k) = 0).
  { induction k as [|k IH]; intros Hk; [split; reflexivity|].
    destruct IH as (IH1 & IH2); [lia|].
    unfold answers in *. rewrite seq_S, map_app, timings_app, tally_app.
    rewrite IH1, IH2. cbn [map Nat.add timings tally app].
    specialize (Hconn (Z.of_nat k) ltac:(lia)).
    destruct (conn (Z.of_nat k) (request (Z.of_nat k) l));
      [split; reflexivity | discriminate ..]. }
  destruct (Hrs (Z.to_nat n) (le_n _)) as (Hts & Hok).
  destruct (run_recorded conn w n l s (proj2 Hn) Hrun)
    as (_ & Hsent & Hsucc & Hfail & _ & _ & Hmin & Hmax).
  assert (Hsum : summed conn 0 l (Z.max n 0) s).
  { apply (run_summed conn w n l 0 s); [lia | unfold MaxInt64; lia | | exact Hrun].
    intros i Hi Htr. rewrite Hconn in Htr by trivial. discriminate. }
  destruct Hsum as (_ & Htot & _).
  replace (Z.to_nat (Z.max n 0)) with (Z.to_nat n) in * by lia.
  rewrite Hts in *. rewrite Hok in *. cbn [fold_right] in *.
  assert (Hout : printed s = replicate (Z.to_nat n) RequestFailed).
  { unfold pingRequests in Hrun.
    assert (Hinv : size (vars s) = l
                   /\ printed s
                      = replicate (Z.to_nat (0 + Z.of_nat (Z.to_nat n)))
                          RequestFailed).
    { apply (pingLoop_invariant conn
               (fun i s => size (vars s) = l
                           /\ printed s
                              = replicate (Z.to_nat i) RequestFailed)
               n) with (s := start (initial w n l));
        [ | lia | lia | split; reflexivity | exact Hrun].
      intros i s0 s1 Hi (Hsz & Hpr) E.
      destruct (attempt_step _ _ _ _ E) as (ln & Hv & Hp & _ & Hln).
      rewrite Hsz in *. specialize (Hconn i Hi).
      destruct (conn i (request i l)); try discriminate.
      rewrite Hv, Hp, Hpr, (Hln eq_refl). split; [exact Hsz|].
      replace (Z.to_nat (i + 1)) with (Z.to_nat i + 1)%nat by lia.
      rewrite replicate_add. reflexivity. }
    destruct Hinv as (_ & Hinv). rewrite Hinv. f_equal. lia. }
  unfold ping. cbn [count initial]. fold (pingRequests conn (initial w n l)).
  unfold pingRequests, start, initial in *. cbn [count] in *.
  rewrite Hrun. cbn [bind]. unfold summarize, quo64. rewrite Hout.
  unfold MaxInt64 in Hn.
  rewrite (int64_small (sendCount (vars s)))
    by (unfold MinInt64, MaxInt64; lia).
  destruct (Z.eqb_spec (sendCount (vars s)) 0); [lia|].
  cbn [bind]. eexists. split; [reflexivity|].
  cbn [sent received lost shortest longest average].
  unfold total in Htot. cbn in Htot. rewrite Htot, Hmin, Hmax.
  rewrite Z.quot_0_l by lia. repeat split; lia.
Qed.

Lemma run_without_a_written_request_witness :
  let conn : transport := fun _ _ => WriteErr 3 in
  exists sm,
    ping conn (initial 1000 4 32)
    = Ok (replicate (Z.to_nat 4) RequestFailed, sm)
    /\ sent sm = 4 /\ received sm = 0 /\ lost sm = 4
    /\ shortest sm = MaxInt32 /\ longest sm = 0 /\ average sm = 0.
Proof.
  intros conn. apply (run_without_a_written_request conn 1000 4 32).
  - unfold MaxInt64. lia.
  - lia.
  - reflexivity.
Defined.

(** ** The reply line as a function of the datagram *)

Lemma readInto_lookup (dgram : list byte) (k : nat) :
  (k < bufLen)%nat ->
  fst (readInto dgram) !! k = Some (default x00 (dgram !! k)).
Proof.
  intros Hk. destruct (dgram !! k) as [b|] eqn:E.
  - now apply readInto_front.
  - apply lookup_ge_None in E. unfold readInto. cbn [fst default].
    rewrite take_ge by lia.
    rewrite lookup_app_r by trivial.
    apply lookup_replicate_2. lia.
Qed.

Lemma bufLen_gt_16 : (16 < bufLen)%nat.
Proof. pose proof bufLen_Z. lia. Qed.

(** X14.  The reply line in terms of the datagram read: each of the five
    bytes it shows is the datagram's byte at that offset, or 0 when the
    datagram is too short to have one, and the byte count is the
    datagram's length (at most 65536) less 28, negative for a datagram
    of fewer than 28 bytes; the request is counted as a success all the
    same. *)
Theorem reply_line_of_datagram
  (conn : transport) (i : Z) (s : session) (t : Z) (dgram : list byte) :
  0 <= size (vars s) ->
  conn i (request i (size (vars s))) = ReadOk t dgram ->
  exists s',
    attempt conn i s = Ok s'
    /\ printed s'
       = printed s
         ++ [Reply (default x00 (dgram !! 12%nat))
                   (default x00 (dgram !! 13%nat))
                   (default x00 (dgram !! 14%nat))
                   (default x00 (dgram !! 15%nat))
                   (Z.min (Z.of_nat (length dgram)) 65536 - 28)
                   t
                   (default x00 (dgram !! 8%nat))]
    /\ successCount (vars s') = int64 (successCount (vars s) + 1)
    /\ failCount (vars s') = failCount (vars s).
Proof.
  intros Hsize Hconn.
  destruct (attempt_total conn i s Hsize) as (data & s' & Hb & Hx & E).
  rewrite (request_built _ _ _ Hb) in Hconn. rewrite Hconn in Hx.
  destruct (exchange_ReadOk (incSendCount (vars s)) s t dgram)
    as (a & b & c & d & ttl & Ha & Hb' & Hc & Hd & Httl & Hx').
  rewrite Hx' in Hx. apply Ok_inj in Hx. subst s'.
  pose proof bufLen_gt_16 as Hlen.
  rewrite readInto_lookup in Ha, Hb', Hc, Hd, Httl by lia.
  injection Ha as <-. injection Hb' as <-. injection Hc as <-.
  injection Hd as <-. injection Httl as <-.
  eexists. split; [exact E|]. rewrite readInto_count. repeat split.
Qed.

(** A datagram of four bytes. *)
Lemma reply_line_of_datagram_witness :
  let conn : transport := fun _ _ => ReadOk 5 [x45; x00; x00; x04] in
  let s := start (initial 1000 4 32) in
  exists s',
    attempt conn 0 s = Ok s'
    /\ printed s'
       = printed s
         ++ [Reply (default x00 ([x45; x00; x00; x04] !! 12%nat))
                   (default x00 ([x45; x00; x00; x04] !! 13%nat))
                   (default x00 ([x45; x00; x00; x04] !! 14%nat))
                   (default x00 ([x45; x00; x00; x04] !! 15%nat))
                   (Z.min (Z.of_nat (length [x45; x00; x00; x04])) 65536 - 28)
                   5
                   (default x00 ([x45; x00; x00; x04] !! 8%nat))]
    /\ successCount (vars s') = int64 (successCount (vars s) + 1)
    /\ failCount (vars s') = failCount (vars s).
Proof.
  intros conn s.
  apply (reply_line_of_datagram conn 0 s 5 [x45; x00; x00; x04]).
  - cbn. lia.
  - reflexivity.
Defined.

(** ** The program around the loop *)

Lemma getArgOfHost_last (rest : list string) (host : string) :
  rest <> [] -> getArgOfHost (rest ++ [host]) = Ok (Some host).
Proof.
  intros Hne. unfold getArgOfHost. rewrite length_app. cbn [length].
  destruct rest as [|a rest]; [contradiction|]. cbn [length].
  destruct (Z.ltb_spec (Z.of_nat (S (length rest) + 1)) 2) as [H|_]; [lia|].
  replace (Z.to_nat (Z.of_nat (S (length rest) + 1) - 1))
    with (length (a :: rest)) by (cbn [length]; lia).
  now rewrite list_lookup_middle.
Qed.

Lemma getArgOfHost_short (Args : list string) :
  (length Args < 2)%nat -> getArgOfHost Args = Ok None.
Proof.
  intros H. unfold getArgOfHost.
  destruct (Z.ltb_spec (Z.of_nat (length Args)) 2); [reflexivity|lia].
Qed.

(** X15.  [getArgOfHost] never indexes out of range: with fewer than two
    arguments (the program name counts) it shows the usage text and
    exits, and otherwise it returns the last argument, whatever stands
    before it. *)
Theorem getArgOfHost_cases :
  (forall Args : list string,
     (length Args < 2)%nat -> getArgOfHost Args = Ok None)
  /\ (forall (rest : list string) (host : string),
        rest <> [] -> getArgOfHost (rest ++ [host]) = Ok (Some host))
  /\ (forall Args : list string,
        getArgOfHost Args <> Panic IndexOutOfRange).
Proof.
  split; [exact getArgOfHost_short|]. split; [exact getArgOfHost_last|].
  intros Args.
  destruct (le_lt_dec 2 (length Args)) as [H|H].
  - destruct (exists_last (l := Args)) as (rest & host & ->).
    { intros ->. cbn in H. lia. }
    rewrite getArgOfHost_last; [discriminate|].
    intros ->. cbn in H. lia.
  - rewrite getArgOfHost_short by trivial. discriminate.
Qed.

Lemma getArgOfHost_cases_witness :
  getArgOfHost ["ping"%string] = Ok None
  /\ getArgOfHost (["ping"%string; "-n"%string; "4"%string]
                     ++ ["example.org"%string])
     = Ok (Some "example.org"%string).
Proof.
  split.
  - apply (proj1 getArgOfHost_cases). cbn. lia.
  - apply (proj1 (proj2 getArgOfHost_cases)). discriminate.
Defined.

(** X16.  How the program ends, the flags being parsed and the count an
    [int]: with fewer than two arguments after the usage text; with a
    last argument that cannot be dialled after the not-found line, no
    request made; otherwise with the summary when the count is positive
    and the payload size not negative, and in a panic when they are
    not. *)
Theorem main_ends (w n l : Z) (dial : dialer) :
  n <= MaxInt64 ->
  (forall Args, (length Args < 2)%nat -> main w n l Args dial = UsageShown)
  /\ (forall rest host,
        rest <> [] -> dial host w = None ->
        main w n l (rest ++ [host]) dial = HostNotFound host)
  /\ (forall rest host conn,
        rest <> [] -> dial host w = Some conn ->
        (0 < n -> 0 <= l ->
         exists out sm,
           ping conn (initial w n l) = Ok (out, sm)
           /\ main w n l (rest ++ [host]) dial = Finished out sm)
        /\ (n <= 0 ->
            main w n l (rest ++ [host]) dial = Crashed IntegerDivideByZero)
        /\ (0 < n -> l < 0 ->
            main w n l (rest ++ [host]) dial
            = Crashed MakeSliceLenOutOfRange)).
Proof.
  intros Hn. split; [|split].
  - intros Args H. unfold main. now rewrite getArgOfHost_short.
  - intros rest host Hne Hd. unfold main, pingHost.
    rewrite getArgOfHost_last by trivial. cbn [timeout initial]. now rewrite Hd.
  - intros rest host conn Hne Hd.
    destruct (ping_cases conn w n l Hn) as (Hok & Hzero & Hneg).
    unfold main, pingHost. rewrite getArgOfHost_last by trivial.
    cbn [timeout initial]. rewrite Hd.
    fold (initial w n l). split; [|split].
    + intros Hpos Hl. destruct (Hok Hpos Hl) as (out & sm & E & _).
      exists out, sm. split; [exact E|]. now rewrite E.
    + intros Hle. now rewrite (Hzero Hle).
    + intros Hpos Hl. now rewrite (Hneg Hpos Hl).
Qed.

Lemma main_ends_witness :
  let dial : dialer :=
    fun host _ => if String.eqb host "nowhere" then None
                  else Some (fun _ _ => ReadErr 1000) in
  main 1000 4 32 ["ping"%string] dial = UsageShown
  /\ main 1000 4 32 (["ping"%string] ++ ["nowhere"%string]) dial
     = HostNotFound "nowhere".
Proof.
  intros dial.
  assert (H : 4 <= MaxInt64) by (unfold MaxInt64; lia).
  split.
  - apply (proj1 (main_ends 1000 4 32 dial H)). cbn. lia.
  - apply (proj1 (proj2 (main_ends 1000 4 32 dial H))).
    + discriminate.
    + reflexivity.
Defined.

(** ** The average between the shortest and the longest time *)

Lemma int64_add_wrapped (a b : Z) : int64 (int64 a + b) = int64 (a + b).
Proof.
  unfold int64. change (2 ^ 63) with 9223372036854775808.
  change (2 ^ 64) with 18446744073709551616.
  Z.to_euclidean_division_equations; lia.
Qed.

Lemma wrapped_step (conn : transport) (l i : Z) (s s' : session) :
  0 <= i -> wrapped conn l i s -> attempt conn i s = Ok s' ->
  wrapped conn l (i + 1) s'.
Proof.
  intros Hi (Hsize & Htot) E.
  destruct (attempt_step _ _ _ _ E) as (ln & Hvars & _).
  rewrite Hsize in *.
  unfold wrapped. rewrite answers_next, timings_app, Hvars by lia.
  destruct (conn i (request i l)) as [t|t|t dgram];
    cbn [settle timings transmitted elapsed app size totalTs
         incSendCount incSuccessCount incFailCount recordTs];
    rewrite ?app_nil_r, ?total_snoc, ?Htot, ?int64_add_wrapped;
    split; trivial.
Qed.

(** The loop of a whole run keeps [wrapped]. *)
Lemma run_wrapped (conn : transport) (w n l : Z) (s : session) :
  pingRequests conn (initial w n l) = Ok s ->
  wrapped conn l (Z.max n 0) s.
Proof.
  intros Hrun. unfold pingRequests in Hrun. cbn [count initial] in Hrun.
  replace (Z.max n 0) with (0 + Z.of_nat (Z.to_nat n)) by lia.
  apply (pingLoop_invariant conn (wrapped conn l) (Z.max n 0))
    with (s := start (initial w n l)); [ | lia | lia | | exact Hrun].
  - intros i s0 s1 Hi. apply wrapped_step. lia.
  - split; reflexivity.
Qed.

Lemma timings_length (rs : list response) :
  (length (timings rs) <= length rs)%nat.
Proof.
  induction rs as [|r rs IH]; cbn [timings length]; [lia|].
  destruct (transmitted r); cbn [length]; lia.
Qed.

Lemma timings_length_written (conn : transport) (l : Z) (m : nat) :
  (forall i, 0 <= i < Z.of_nat m ->
             transmitted (conn i (request i l)) = true) ->
  length (timings (answers conn l m)) = m.
Proof.
  induction m as [|m IH]; intros H; [reflexivity|].
  unfold answers in *. rewrite seq_S, map_app, timings_app, length_app.
  rewrite IH by (intros i Hi; apply H; lia).
  cbn [map Nat.add timings]. rewrite H by lia. cbn [length]. lia.
Qed.

Lemma total_at_most (ts : list Z) :
  0 <= fold_right Z.max 0 ts
  /\ total ts <= Z.of_nat (length ts) * fold_right Z.max 0 ts.
Proof.
  unfold total. induction ts as [|t ts [IH0 IH]]; cbn [fold_right length].
  - lia.
  - split; [lia|]. nia.
Qed.

Lemma total_at_least (m : Z) (ts : list Z) :
  Z.of_nat (length ts) * fold_right Z.min m ts <= total ts.
Proof.
  unfold total. induction ts as [|t ts IH]; cbn [fold_right length]; nia.
Qed.

(** Truncated division by a positive number keeps integer bounds. *)
Lemma quot_between (x n a b : Z) :
  0 < n ->
  (n * a <= x -> a <= Z.quot x n) /\ (x <= n * b -> Z.quot x n <= b).
Proof.
  intros Hn. pose proof (Z.quot_rem' x n) as Hqr.
  assert (Hr : - n < Z.rem x n < n).
  { pose proof (Z.rem_bound_abs x n). lia. }
  generalize dependent (Z.rem x n). generalize dependent (Z.quot x n).
  intros q r Hqr Hr. split; intros H.
  - destruct (Z.lt_ge_cases q a) as [Hlt|]; [|lia].
    assert (n * q <= n * (a - 1)) by (apply Z.mul_le_mono_nonneg_l; lia). lia.
  - destruct (Z.lt_ge_cases b q) as [Hlt|]; [|lia].
    assert (n * (b + 1) <= n * q) by (apply Z.mul_le_mono_nonneg_l; lia). lia.
Qed.

(** C6, as the code has it.  When the loop of a run of [n > 0] requests
    ends and the sum of the elapsed times of the exchanges whose datagram
    was written is within [int64], the summary is printed with the
    average [totalTs / sendCount], truncated; the average is at most the
    longest time, and when no write failed the shortest time is at most
    the average. *)
Theorem min_avg_max (conn : transport) (w n l : Z) :
  0 < n <= MaxInt64 -> 0 <= l ->
  MinInt64 <= total (timings (answers conn l (Z.to_nat n))) <= MaxInt64 ->
  exists s sm,
    pingRequests conn (initial w n l) = Ok s
    /\ ping conn (initial w n l) = Ok (printed s, sm)
    /\ sent sm = n
    /\ shortest sm = minTs (vars s)
    /\ longest sm = maxTs (vars s)
    /\ totalTs (vars s) = total (timings (answers conn l (Z.to_nat n)))
    /\ average sm = Z.quot (totalTs (vars s)) (sendCount (vars s))
    /\ average sm <= longest sm
    /\ ((forall i, 0 <= i < n ->
                   transmitted (conn i (request i l)) = true) ->
        shortest sm <= average sm).
Proof.
  intros Hn Hl Hfit.
  destruct (pingLoop_total conn (Z.to_nat n) 0 (start (initial w n l)) Hl)
    as (s & Hrun).
  change (pingRequests conn (initial w n l) = Ok s) in Hrun.
  destruct (run_recorded conn w n l s (proj2 Hn) Hrun)
    as (_ & Hsent & _ & _ & _ & _ & Hmin & Hmax).
  destruct (run_wrapped conn w n l s Hrun) as (_ & Htot).
  replace (Z.to_nat (Z.max n 0)) with (Z.to_nat n) in * by lia.
  rewrite int64_small in Htot by trivial.
  set (ts := timings (answers conn l (Z.to_nat n))) in *.
  destruct (total_at_most ts) as (Hmax0 & Hle).
  pose proof (total_at_least MaxInt32 ts) as Hge.
  pose proof (timings_length (answers conn l (Z.to_nat n))) as Hlen.
  rewrite answers_length in Hlen. fold ts in Hlen.
  assert (Hup : total ts <= n * fold_right Z.max 0 ts) by nia.
  destruct (quot_between (total ts) n (fold_right Z.min MaxInt32 ts)
              (fold_right Z.max 0 ts) (proj1 Hn)) as (Hq1 & Hq2).
  specialize (Hq2 Hup).
  assert (Hqr : MinInt64 <= Z.quot (total ts) n <= MaxInt64).
  { destruct (quot_between (total ts) n MinInt64 MaxInt64 (proj1 Hn))
      as (Hlo & Hhi).
    unfold MinInt64, MaxInt64 in *. split; [apply Hlo | apply Hhi]; nia. }
  exists s. unfold ping. rewrite Hrun. cbn [bind]. unfold summarize, quo64.
  unfold MaxInt64 in Hn.
  rewrite (int64_small (sendCount (vars s)))
    by (unfold MinInt64, MaxInt64; lia).
  destruct (Z.eqb_spec (sendCount (vars s)) 0) as [H0|_]; [lia|].
  cbn [bind]. eexists. split; [reflexivity|]. split; [reflexivity|].
  cbn [sent shortest longest average].
  replace (sendCount (vars s)) with n by lia.
  rewrite Htot, Hmin, Hmax, (int64_small _ Hqr).
  split; [reflexivity|]. split; [reflexivity|]. split; [reflexivity|].
  split; [reflexivity|]. split; [reflexivity|]. split; [exact Hq2|].
  intros Hall. apply Hq1.
  assert (Hn' : length ts = Z.to_nat n).
  { apply timings_length_written. intros i Hi. apply Hall. lia. }
  rewrite Hn' in Hge. lia.
Qed.

(** Four requests: one is not written, one times out after a second,
    two are answered after five milliseconds. *)
Lemma min_avg_max_witness :
  let conn : transport :=
    fun i _ => if i =? 0 then WriteErr 3
               else if i =? 2 then ReadErr 1000 else ReadOk 5 [] in
  exists s sm,
    pingRequests conn (initial 1000 4 32) = Ok s
    /\ ping conn (initial 1000 4 32) = Ok (printed s, sm)
    /\ sent sm = 4
    /\ shortest sm = minTs (vars s)
    /\ longest sm = maxTs (vars s)
    /\ totalTs (vars s) = total (timings (answers conn 32 (Z.to_nat 4)))
    /\ average sm = Z.quot (totalTs (vars s)) (sendCount (vars s))
    /\ average sm <= longest sm
    /\ ((forall i, 0 <= i < 4 ->
                   transmitted (conn i (request i 32)) = true) ->
        shortest sm <= average sm).
Proof.
  intros conn. apply (min_avg_max conn 1000 4 32).
  - unfold MaxInt64. lia.
  - lia.
  - vm_compute. split; discriminate.
Defined.

(** C6, as stated, fails: of two requests the first is not written and
    the second is answered after ten milliseconds; two were sent, the
    shortest and the longest time are 10 and the average is 5. *)
Lemma write_failure_lowers_average :
  let conn : transport :=
    fun i _ => if i =? 0 then WriteErr 3 else ReadOk 10 [] in
  exists out sm,
    ping conn (initial 1000 2 32) = Ok (out, sm)
    /\ 0 < sent sm
    /\ shortest sm = 10 /\ average sm = 5 /\ longest sm = 10
    /\ ~ (shortest sm <= average sm <= longest sm).
Proof.
  intros conn. eexists _, _. split; [vm_compute; reflexivity|].
  cbn [sent shortest average longest]. repeat split; lia.
Qed.

(** Why the sum has to be within [int64]: the model lets an exchange
    take any [int64] number of milliseconds, and two reads that time out
    after 9223372036854775807 ms each leave [totalTs] at -2 and the
    average at -1, below the shortest time, though no write failed. *)
Lemma wrapped_total_lowers_average :
  let conn : transport := fun _ _ => ReadErr MaxInt64 in
  exists out sm,
    ping conn (initial 1000 2 32) = Ok (out, sm)
    /\ shortest sm = MaxInt32 /\ average sm = -1
    /\ ~ (shortest sm <= average sm).
Proof.
  intros conn. eexists _, _. split; [vm_compute; reflexivity|].
  cbn [shortest average]. unfold MaxInt32. repeat split; lia.
Qed.
